(** * GenzAI: the streaming chat state machine of the [App] component

    A shallow embedding of the conversation logic of the browser chat
    client: [types.ts], [services/geminiService.ts] and the [App]
    component ([handleSend], [startNewChat] and the other state setters).

    Conventions of the embedding.
    - A JavaScript string is a [string]; each character stands for one code
      unit below 256.  Truthiness of a string is non-emptiness.
    - React state is a record; a handler is a function from the state it
      was rendered with to the state after its updates.  Functional updates
      ([setMessages (prev => ...)]) act on the current state.
    - The browser supplies what the handler cannot compute: the renderings
      of [Math.random()], the values of [new Date()], and the behaviour of
      the remote stream.  They are arguments of the embedded functions. *)

From Stdlib Require Import ZArith Ascii String.
From stdpp Require Import base option list strings.

(** ** JavaScript string built-ins used by the component *)

Module JsString.

(** White space and line terminators of ECMAScript, restricted to code
    units below 256: TAB, LF, VT, FF, CR, SPACE and NBSP. *)
Definition is_white_space (c : ascii) : bool :=
  let n := nat_of_ascii c in
  ((9 <=? n) && (n <=? 13))%nat || (n =? 32)%nat || (n =? 160)%nat.

(** Truthiness of a string: [!!s]. *)
Definition truthy (s : string) : bool :=
  match s with
  | EmptyString => false
  | String _ _ => true
  end.

Fixpoint trimStart (s : string) : string :=
  match s with
  | EmptyString => EmptyString
  | String c r => if is_white_space c then trimStart r else s
  end.

Fixpoint trimEnd (s : string) : string :=
  match s with
  | EmptyString => EmptyString
  | String c r =>
      let r' := trimEnd r in
      if is_white_space c && negb (truthy r') then EmptyString
      else String c r'
  end.

(** [String.prototype.trim]. *)
Definition trim (s : string) : string := trimEnd (trimStart s).

(** [String.prototype.substr (start, length)] for non-negative
    arguments. *)
Definition substr (start len : nat) (s : string) : string :=
  substring start len s.

(** First and last character, used to say "no surrounding white space". *)
Definition head (s : string) : option ascii :=
  match s with
  | EmptyString => None
  | String c _ => Some c
  end.

Fixpoint last (s : string) : option ascii :=
  match s with
  | EmptyString => None
  | String c EmptyString => Some c
  | String _ r => last r
  end.

Definition ws_free_ends (s : string) : Prop :=
  (forall c, head s = Some c -> is_white_space c = false) /\
  (forall c, last s = Some c -> is_white_space c = false).

End JsString.

(** ** [types.ts] *)

Module types.

Record Attachment := { data : string; mimeType : string }.

Inductive Role := user | model.

(** [Date]: milliseconds since the epoch. *)
Definition Date := Z.

Record Message := {
  id : string;
  role : Role;
  text : string;
  timestamp : Date;
  attachment : option Attachment
}.

Record ModelOption := {
  name : string;
  displayName : string;
  description : string;
  isFastest : option bool
}.

#[global] Instance Attachment_eq_dec : EqDecision Attachment.
Proof. solve_decision. Defined.

#[global] Instance Role_eq_dec : EqDecision Role.
Proof. solve_decision. Defined.

#[global] Instance Message_eq_dec : EqDecision Message.
Proof. solve_decision. Defined.

End types.

(** ** [services/geminiService.ts] *)

Module geminiService.
Import types.

(** [{ text?: string; inlineData?: Attachment }] *)
Record Part := { p_text : option string; inlineData : option Attachment }.

Definition inlinePart (a : Attachment) : Part :=
  {| p_text := None; inlineData := Some a |}.

Definition textPart (t : string) : Part :=
  {| p_text := Some t; inlineData := None |}.

Record Content := { c_role : Role; parts : list Part }.

(** [messageContent : any] is either the prompt itself or an array of
    parts. *)
Inductive MessageContent :=
| PromptOnly (prompt : string)
| PartArray (ps : list Part).

Definition systemInstruction : string :=
  "You are GenzAI, a helpful, witty, and professional AI assistant. You can analyze images if provided. Format your responses with clear paragraphs and Markdown.".

(** What reaches the remote service: the arguments of [ai.chats.create]
    and of [chat.sendMessageStream]. *)
Record Request := {
  rq_model : string;
  rq_systemInstruction : string;
  rq_history : list Content;
  rq_message : MessageContent
}.

Definition defaultModelName : string := "gemini-3-pro-preview".

(** The request built by [sendMessageToGeminiStream]; an omitted
    [history] or [modelName] takes its default. *)
Definition sendMessageToGeminiStream
    (prompt : string) (history : option (list Content))
    (modelName : option string) (attachment : option Attachment) : Request :=
  let history := default [] history in
  let modelName := default defaultModelName modelName in
  let messageContent :=
    match attachment with
    | Some a => PartArray [inlinePart a; textPart prompt]
    | None => PromptOnly prompt
    end in
  {| rq_model := modelName;
     rq_systemInstruction := systemInstruction;
     rq_history :=
       (fun h => {| c_role := c_role h; parts := parts h |}) <$> history;
     rq_message := messageContent |}.

(** Which optional field of a part is present. *)
Definition is_inline (p : Part) : bool := bool_decide (is_Some (inlineData p)).

Definition is_text (p : Part) : bool := bool_decide (is_Some (p_text p)).

End geminiService.

(** ** The [App] component *)

Module App.
Import JsString types geminiService.

Definition geminiPro : ModelOption :=
  {| name := "gemini-3-pro-preview";
     displayName := "Gemini Pro";
     description := "Advanced reasoning, coding, and complex tasks.";
     isFastest := None |}.

Definition geminiFlash : ModelOption :=
  {| name := "gemini-flash-latest";
     displayName := "Gemini Flash";
     description := "Fastest model for basic text tasks and quick responses.";
     isFastest := Some true |}.

Definition AVAILABLE_MODELS : list ModelOption := [geminiPro; geminiFlash].

(** The [useState] cells of the component. *)
Record State := {
  messages : list Message;
  input : string;
  isLoading : bool;
  isListening : bool;
  selectedModel : ModelOption;
  isModelSelectorOpen : bool;
  attachment : option Attachment
}.

Definition initialState : State :=
  {| messages := [];
     input := "";
     isLoading := false;
     isListening := false;
     selectedModel := default geminiPro (AVAILABLE_MODELS !! 0%nat);
     isModelSelectorOpen := false;
     attachment := None |}.

(** *** State setters *)

Definition setMessages (f : list Message -> list Message) (s : State) : State :=
  {| messages := f (messages s); input := input s; isLoading := isLoading s;
     isListening := isListening s; selectedModel := selectedModel s;
     isModelSelectorOpen := isModelSelectorOpen s; attachment := attachment s |}.

Definition setInput (f : string -> string) (s : State) : State :=
  {| messages := messages s; input := f (input s); isLoading := isLoading s;
     isListening := isListening s; selectedModel := selectedModel s;
     isModelSelectorOpen := isModelSelectorOpen s; attachment := attachment s |}.

Definition setIsLoading (b : bool) (s : State) : State :=
  {| messages := messages s; input := input s; isLoading := b;
     isListening := isListening s; selectedModel := selectedModel s;
     isModelSelectorOpen := isModelSelectorOpen s; attachment := attachment s |}.

Definition setIsListening (b : bool) (s : State) : State :=
  {| messages := messages s; input := input s; isLoading := isLoading s;
     isListening := b; selectedModel := selectedModel s;
     isModelSelectorOpen := isModelSelectorOpen s; attachment := attachment s |}.

Definition setSelectedModel (m : ModelOption) (s : State) : State :=
  {| messages := messages s; input := input s; isLoading := isLoading s;
     isListening := isListening s; selectedModel := m;
     isModelSelectorOpen := isModelSelectorOpen s; attachment := attachment s |}.

Definition setIsModelSelectorOpen (b : bool) (s : State) : State :=
  {| messages := messages s; input := input s; isLoading := isLoading s;
     isListening := isListening s; selectedModel := selectedModel s;
     isModelSelectorOpen := b; attachment := attachment s |}.

Definition setAttachment (a : option Attachment) (s : State) : State :=
  {| messages := messages s; input := input s; isLoading := isLoading s;
     isListening := isListening s; selectedModel := selectedModel s;
     isModelSelectorOpen := isModelSelectorOpen s; attachment := a |}.

(** *** [generateId] *)

(** [Math.random().toString(36).substr(2, 9)]; the argument is the
    base-36 rendering of the random number, such as ["0.i"] for one half. *)
Definition generateId (rnd36 : string) : string := substr 2 9 rnd36.

(** *** [handleSend] *)

(** The entry guard: [(!input.trim() && !attachment) || isLoading]. *)
Definition guard (s : State) : bool :=
  (negb (truthy (trim (input s))) && negb (bool_decide (is_Some (attachment s))))
  || isLoading s.

Definition userMsg (rnd36 : string) (now : Date) (s : State) : Message :=
  {| id := generateId rnd36;
     role := user;
     text := trim (input s);
     timestamp := now;
     types.attachment := attachment s |}.

Definition botMsg (botMsgId : string) (now : Date) : Message :=
  {| id := botMsgId;
     role := model;
     text := "";
     timestamp := now;
     types.attachment := None |}.

Definition failureNotice : string :=
  "I'm having trouble connecting right now. Please try again.".

Definition errorMsg (rnd36 : string) (now : Date) : Message :=
  {| id := generateId rnd36;
     role := model;
     text := failureNotice;
     timestamp := now;
     types.attachment := None |}.

(** The parts of one historical message, built by successive [push]es. *)
Definition historyParts (m : Message) : list Part :=
  let parts := [] in
  let parts :=
    match types.attachment m with
    | Some a => parts ++ [inlinePart a]
    | None => parts
    end in
  let parts :=
    if truthy (text m) then parts ++ [textPart (text m)] else parts in
  parts.

(** [messages.map (m => ...)] over the messages the handler was rendered
    with. *)
Definition history (s : State) : list Content :=
  (fun m => {| c_role := role m; parts := historyParts m |}) <$> messages s.

(** The request issued by an invocation that passes the guard. *)
Definition request (s : State) : Request :=
  sendMessageToGeminiStream
    (trim (input s)) (Some (history s)) (Some (name (selectedModel s)))
    (attachment s).

(** The synchronous part of [handleSend], from the guard to the first
    [await]: both appends, the busy flag, and the cleared inputs. *)
Definition sendPrologue
    (rnd_user : string) (now_user : Date) (rnd_bot : string) (now_bot : Date)
    (s : State) : State :=
  let userMsg := userMsg rnd_user now_user s in
  let s := setInput (fun _ => "") s in
  let s := setAttachment None s in
  let s := setMessages (fun prev => prev ++ [userMsg]) s in
  let s := setIsLoading true s in
  let botMsgId := generateId rnd_bot in
  let s := setMessages (fun prev => prev ++ [botMsg botMsgId now_bot]) s in
  s.

(** One iteration of the [for await] loop; [chunkText] is [chunk.text],
    which may be undefined. *)
Definition appendChunk (botMsgId chunkText : string) (msg : Message) : Message :=
  if decide (id msg = botMsgId)
  then {| id := id msg; role := role msg; text := text msg +:+ chunkText;
          timestamp := timestamp msg; types.attachment := types.attachment msg |}
  else msg.

Definition onChunk (botMsgId : string) (chunkText : option string) (s : State)
    : State :=
  match chunkText with
  | Some chunkText =>
      if truthy chunkText
      then setMessages (fun prev => appendChunk botMsgId chunkText <$> prev) s
      else s
  | None => s
  end.

Definition onCatch (rnd_err : string) (now_err : Date) (s : State) : State :=
  setMessages (fun prev => prev ++ [errorMsg rnd_err now_err]) s.

Definition onFinally (s : State) : State := setIsLoading false s.

(** How the remote stream behaves during one invocation. *)
Inductive StreamEnd := Completes | Throws.

Inductive Stream :=
| OpenFails
| Opens (chunks : list (option string)) (e : StreamEnd).

(** Everything the browser supplies to one invocation. *)
Record SendEnv := {
  rnd_user : string; now_user : Date;
  rnd_bot : string; now_bot : Date;
  rnd_err : string; now_err : Date;
  stream : Stream
}.

Definition prologue (env : SendEnv) (s : State) : State :=
  sendPrologue (rnd_user env) (now_user env) (rnd_bot env) (now_bot env) s.

Definition botMsgId (env : SendEnv) : string := generateId (rnd_bot env).

Definition onChunks (botMsgId : string) (chunks : list (option string))
    (s : State) : State :=
  foldl (fun st c => onChunk botMsgId c st) s chunks.

(** The state when the stream stops, by completion or by a failure: after
    the prologue and every chunk received. *)
Definition atStreamStop (env : SendEnv) (s : State) : State :=
  match stream env with
  | OpenFails => prologue env s
  | Opens chunks _ => onChunks (botMsgId env) chunks (prologue env s)
  end.

Definition streamFails (st : Stream) : bool :=
  match st with
  | OpenFails => true
  | Opens _ Throws => true
  | Opens _ Completes => false
  end.

(** A whole invocation that runs without any other handler in between. *)
Definition handleSend (env : SendEnv) (s : State) : State :=
  if guard s then s
  else
    let s := atStreamStop env s in
    let s :=
      if streamFails (stream env)
      then onCatch (rnd_err env) (now_err env) s
      else s in
    onFinally s.

(** *** The other handlers *)

Definition startNewChat (s : State) : State :=
  let s := setMessages (fun _ => []) s in
  let s := setInput (fun _ => "") s in
  let s := setAttachment None s in
  s.

Definition removeAttachment (s : State) : State := setAttachment None s.

(** [reader.onload] of [handleFileSelect]. *)
Definition onFileLoaded (a : Attachment) (s : State) : State :=
  setAttachment (Some a) s.

(** [recognition.onresult] of [toggleListening]. *)
Definition onTranscript (transcript : string) (s : State) : State :=
  setInput (fun prev => prev +:+ (if truthy prev then " " else "") +:+ transcript) s.

(** *** Handlers interleaved: the component as an event system

    [handleSend] is asynchronous: between its prologue, each chunk and its
    end, other handlers run.  A [World] holds the React state, the
    invocations of [handleSend] that are suspended at an [await] (each one
    remembers its [botMsgId]), and a log of every id that [generateId] has
    returned so far. *)

Record World := {
  ui : State;
  inflight : list string;
  drawn : list string
}.

Definition initialWorld : World :=
  {| ui := initialState; inflight := []; drawn := [] |}.

Inductive Event :=
| EvInput (v : string)
| EvFileLoaded (a : Attachment)
| EvRemoveAttachment
| EvTranscript (transcript : string)
| EvListening (b : bool)
| EvSelectModel (m : ModelOption)
| EvModelSelector (b : bool)
| EvNewChat
| EvSend (rnd_user : string) (now_user : Date) (rnd_bot : string) (now_bot : Date)
| EvChunk (k : nat) (chunkText : option string)
| EvStreamEnd (k : nat)
| EvStreamError (k : nat) (rnd_err : string) (now_err : Date).

Definition onUi (f : State -> State) (w : World) : World :=
  {| ui := f (ui w); inflight := inflight w; drawn := drawn w |}.

(** Stream events name the suspended invocation they resume by its
    position [k]; an event for no invocation does nothing.  A send is
    taken here on a render of the current state: its handler reads the
    current cells.  [Closures.rstep] below is the system without this
    assumption. *)
Definition step (e : Event) (w : World) : World :=
  match e with
  | EvInput v => onUi (setInput (fun _ => v)) w
  | EvFileLoaded a => onUi (onFileLoaded a) w
  | EvRemoveAttachment => onUi removeAttachment w
  | EvTranscript t => onUi (onTranscript t) w
  | EvListening b => onUi (setIsListening b) w
  | EvSelectModel m =>
      onUi (fun s => setIsModelSelectorOpen false (setSelectedModel m s)) w
  | EvModelSelector b => onUi (setIsModelSelectorOpen b) w
  | EvNewChat => onUi startNewChat w
  | EvSend ru tu rb tb =>
      if guard (ui w) then w
      else
        {| ui := sendPrologue ru tu rb tb (ui w);
           inflight := inflight w ++ [generateId rb];
           drawn := drawn w ++ [generateId ru; generateId rb] |}
  | EvChunk k c =>
      match inflight w !! k with
      | Some botMsgId => onUi (onChunk botMsgId c) w
      | None => w
      end
  | EvStreamEnd k =>
      match inflight w !! k with
      | Some _ =>
          {| ui := onFinally (ui w);
             inflight := delete k (inflight w);
             drawn := drawn w |}
      | None => w
      end
  | EvStreamError k re te =>
      match inflight w !! k with
      | Some _ =>
          {| ui := onFinally (onCatch re te (ui w));
             inflight := delete k (inflight w);
             drawn := drawn w ++ [generateId re] |}
      | None => w
      end
  end.

Definition run (es : list Event) (w : World) : World :=
  foldl (fun w e => step e w) w es.

Inductive reachable : World -> Prop :=
| reachable_init : reachable initialWorld
| reachable_step e w : reachable w -> reachable (step e w).

(** The events of one invocation that nothing interrupts, when it is the
    only one in flight. *)
Definition sendEvents (env : SendEnv) : list Event :=
  EvSend (rnd_user env) (now_user env) (rnd_bot env) (now_bot env) ::
  match stream env with
  | OpenFails => [EvStreamError 0 (rnd_err env) (now_err env)]
  | Opens chunks e =>
      (EvChunk 0 <$> chunks) ++
      [match e with
       | Completes => EvStreamEnd 0
       | Throws => EvStreamError 0 (rnd_err env) (now_err env)
       end]
  end.

(** *** Predicates of the claims *)

Definition ids (ms : list Message) : list string := id <$> ms.

(** A user message is well formed: its text is a trimmed text, and it is
    not empty unless an attachment comes with it. *)
Definition userMsgOk (m : Message) : Prop :=
  role m = user ->
  trim (text m) = text m ∧
  ws_free_ends (text m) ∧
  (text m ≠ "" ∨ is_Some (types.attachment m)).

(** The content parts as the specification words them: an inline-data
    part first exactly when there is an attachment, then a text part
    exactly when the text is not empty. *)
Definition specParts (m : Message) : list Part :=
  from_option (fun a => [inlinePart a]) [] (types.attachment m) ++
  (if decide (text m = "") then [] else [textPart (text m)]).

(** Concatenation of the texts of the chunks, an undefined text counting
    as empty. *)
Definition chunksText (chunks : list (option string)) : string :=
  foldr (fun c acc => default "" c +:+ acc) "" chunks.

(** What the event system maintains while the ids drawn so far are
    pairwise distinct: the ids of the conversation were drawn, in that
    order; so were the ids held by suspended invocations; no user message
    carries the id of a placeholder still being filled; and every user
    message is well formed. *)
Record tracked (w : World) : Prop := {
  tracked_ids : ids (messages (ui w)) `sublist_of` drawn w;
  tracked_inflight : ∀ b, b ∈ inflight w → b ∈ drawn w;
  tracked_user : ∀ m, m ∈ messages (ui w) → role m = user → id m ∉ inflight w;
  tracked_ok : Forall userMsgOk (messages (ui w))
}.

(** *** Sample inputs *)

(** The state after the user typed [v] into a fresh component. *)
Definition typed (v : string) : State := setInput (fun _ => v) initialState.

Definition sampleImage : Attachment :=
  {| data := "iVBORw0KGgo="; mimeType := "image/png" |}.

(** A browser whose three draws of [Math.random()] differ in their first
    nine digits. *)
Definition sampleEnv (st : Stream) : SendEnv :=
  {| rnd_user := "0.4fzyo82mvyr"; now_user := 1762000000000%Z;
     rnd_bot := "0.8qkl3ta7xwd"; now_bot := 1762000000004%Z;
     rnd_err := "0.c2rmh51jd9e"; now_err := 1762000002150%Z;
     stream := st |}.

(** A send that fails after the chunk ["Hel"], as events. *)
Definition sampleFailedSend : list Event :=
  EvInput "Hi" :: sendEvents (sampleEnv (Opens [Some "Hel"] Throws)).

(** A send for which [Math.random()] returns two different numbers that
    agree on their first nine base-36 digits. *)
Definition collidingSend : list Event :=
  [EvInput "Hi";
   EvSend "0.4fzyo82mvyr" 1762000000000%Z "0.4fzyo82mvz3" 1762000000004%Z].

End App.

(** ** [handleFileSelect]: the payload of a data URL *)

Module FileSelect.
Import JsString types App.

(** [String.prototype.split] with a separator of one character. *)
Fixpoint split (sep : ascii) (s : string) : list string :=
  match s with
  | EmptyString => [EmptyString]
  | String c r =>
      if Ascii.eqb c sep then EmptyString :: split sep r
      else
        match split sep r with
        | h :: t => String c h :: t
        | [] => [String c EmptyString]
        end
  end.

(** [s.includes(c)] for one character. *)
Fixpoint includes (c : ascii) (s : string) : bool :=
  match s with
  | EmptyString => false
  | String x r => Ascii.eqb x c || includes c r
  end.

(** [base64String.split(',')[1]]; [None] is [undefined]. *)
Definition base64Data (base64String : string) : option string :=
  split "," base64String !! 1%nat.

(** [reader.onload]: the attachment is staged with the payload of the
    data URL and the type of the file.  A result without a comma would
    stage an attachment whose [data] is undefined, which [Attachment]
    excludes: that case is [None]. *)
Definition onReaderLoad (result fileType : string) (s : State) : option State :=
  (fun base64Data =>
     setAttachment (Some {| data := base64Data; mimeType := fileType |}) s)
  <$> base64Data result.

(** The [src] of both image previews:
    [`data:${mimeType};base64,${data}`]. *)
Definition previewSrc (a : Attachment) : string :=
  "data:" +:+ mimeType a +:+ ";base64," +:+ data a.

End FileSelect.

(** ** What the components render *)

Module View.
Import JsString types App.

(** [MessageList]: [msg.role === 'model' && msg.text && <BotAvatar />]. *)
Definition showsBotAvatar (msg : Message) : bool :=
  bool_decide (role msg = model) && truthy (text msg).

(** [MessageList]: a model message renders its Markdown when it has text
    and the [ThinkingIndicator] otherwise; a user message never renders
    the indicator. *)
Definition showsThinking (msg : Message) : bool :=
  match role msg with
  | user => false
  | model => if truthy (text msg) then false else true
  end.

Definition showsMarkdown (msg : Message) : bool :=
  match role msg with
  | user => false
  | model => if truthy (text msg) then true else false
  end.

(** [MessageList]: what a user message renders. *)
Definition showsImage (msg : Message) : bool :=
  match role msg with
  | user => bool_decide (is_Some (types.attachment msg))
  | model => false
  end.

Definition showsUserText (msg : Message) : bool :=
  match role msg with
  | user => truthy (text msg)
  | model => false
  end.

(** [MessageList]: the fallback indicator below the list,
    [isLoading && messages.length > 0 &&
     messages[messages.length - 1].role === 'user']. *)
Definition showsFallbackThinking (messages : list Message) (isLoading : bool)
    : bool :=
  isLoading && bool_decide (0 < length messages)%nat &&
  match messages !! (length messages - 1)%nat with
  | Some msg => bool_decide (role msg = user)
  | None => false
  end.

(** [App]: [messages.length === 0 ? <WelcomeScreen/> : <MessageList/>]. *)
Definition showsWelcome (s : State) : bool :=
  bool_decide (length (messages s) = 0%nat).

(** [App]: the [disabled] attribute of the send button. *)
Definition sendDisabled (s : State) : bool :=
  (negb (truthy (trim (input s))) && negb (bool_decide (is_Some (attachment s))))
  || isLoading s.

(** [App]: the condition under which the send button takes its active
    style, [(input.trim() || attachment) && !isLoading]. *)
Definition sendHighlighted (s : State) : bool :=
  (truthy (trim (input s)) || bool_decide (is_Some (attachment s)))
  && negb (isLoading s).

End View.

(** ** Further predicates *)

Module Facts.
Import JsString types App.

(** A string of white space only. *)
Fixpoint blank (s : string) : bool :=
  match s with
  | EmptyString => true
  | String c r => is_white_space c && blank r
  end.

(** What a delta never changes in a message. *)
Definition frame (m : Message) : string * Role * Date * option Attachment :=
  (id m, role m, timestamp m, types.attachment m).

(** The text a stream delivered before it stopped. *)
Definition receivedText (st : Stream) : string :=
  match st with
  | OpenFails => ""
  | Opens chunks _ => chunksText chunks
  end.

Definition filledPlaceholder (env : SendEnv) : Message :=
  {| id := botMsgId env; role := model; text := receivedText (stream env);
     timestamp := now_bot env; types.attachment := None |}.

(** The conversation an accepted send leaves when no other message carries
    the id of its placeholder: the earlier messages, the user message, the
    placeholder holding the text received, and the notice after a
    failure. *)
Definition expectedConversation (env : SendEnv) (s : State) : list Message :=
  messages s ++
  [userMsg (rnd_user env) (now_user env) s; filledPlaceholder env] ++
  (if streamFails (stream env)
   then [errorMsg (rnd_err env) (now_err env)] else []).

End Facts.

(** ** Handlers and the render they belong to

    A handler is created by a render and reads the state cells that this
    render saw; its updates act on the current cells.  [handleSend] is the
    one handler that reads cells ([input], [attachment], [isLoading],
    [messages], [selectedModel]); every other update of the component is
    absolute or functional.  Between two renders the cells read may be
    older than the current ones. *)

Module Closures.
Import JsString types geminiService App.

(** The synchronous part of [handleSend] for a handler created by a
    render that saw [c], run on the current state [s]: the user message is
    built from [c]; the updates are applied to [s]. *)
Definition sendPrologueFrom (c : State)
    (rnd_user : string) (now_user : Date) (rnd_bot : string) (now_bot : Date)
    (s : State) : State :=
  let userMsg := userMsg rnd_user now_user c in
  let s := setInput (fun _ => "") s in
  let s := setAttachment None s in
  let s := setMessages (fun prev => prev ++ [userMsg]) s in
  let s := setIsLoading true s in
  let botMsgId := generateId rnd_bot in
  let s := setMessages (fun prev => prev ++ [botMsg botMsgId now_bot]) s in
  s.

(** The event system together with the state seen by the last render. *)
Record Rendered := {
  world : World;
  closure : State
}.

Definition initialRendered : Rendered :=
  {| world := initialWorld; closure := initialState |}.

Inductive REvent :=
| Render
| Dispatch (e : Event).

(** A render takes the current cells; a send reads the cells of the last
    render (the guard, the user message, and the history of its request,
    [request (closure r)]); every other event is as in [step]. *)
Definition rstep (e : REvent) (r : Rendered) : Rendered :=
  match e with
  | Render => {| world := world r; closure := ui (world r) |}
  | Dispatch (EvSend ru tu rb tb) =>
      if guard (closure r) then r
      else
        {| world :=
             {| ui := sendPrologueFrom (closure r) ru tu rb tb (ui (world r));
                inflight := inflight (world r) ++ [generateId rb];
                drawn := drawn (world r) ++ [generateId ru; generateId rb] |};
           closure := closure r |}
  | Dispatch e => {| world := step e (world r); closure := closure r |}
  end.

Definition rrun (es : list REvent) (r : Rendered) : Rendered :=
  foldl (fun r e => rstep e r) r es.

(** The events of a trace without its renders. *)
Definition dispatched (es : list REvent) : list Event :=
  omap (fun e => match e with Render => None | Dispatch e => Some e end) es.

(** Every send of the trace is dispatched on a render of the current
    state, as when the component re-renders between two user events. *)
Fixpoint sendsRendered (es : list REvent) (r : Rendered) : Prop :=
  match es with
  | [] => True
  | e :: es =>
      match e with
      | Dispatch (EvSend _ _ _ _) => closure r = ui (world r)
      | _ => True
      end ∧ sendsRendered es (rstep e r)
  end.

(** [m] is the user message that a send of the trace built from the cells
    its handler read, and that send passed the guard. *)
Definition sentDuring (es : list REvent) (m : Message) : Prop :=
  ∃ es1 ru tu rb tb es2,
    es = es1 ++ Dispatch (EvSend ru tu rb tb) :: es2 ∧
    guard (closure (rrun es1 initialRendered)) = false ∧
    m = userMsg ru tu (closure (rrun es1 initialRendered)).

(** Two sends dispatched on the same render, and a send dispatched after
    the end of a stream but before the next render. *)
Definition twoSendsOneRender : list REvent :=
  [Dispatch (EvInput "Hi"); Render;
   Dispatch (EvSend "0.4fzyo82mvyr" 1762000000000%Z "0.8qkl3ta7xwd" 1762000000004%Z);
   Dispatch (EvSend "0.c2rmh51jd9e" 1762000000005%Z "0.1x7pzkq03ab" 1762000000006%Z)].

Definition sendBeforeRerender : list REvent :=
  [Dispatch (EvInput "Hi"); Render;
   Dispatch (EvSend "0.4fzyo82mvyr" 1762000000000%Z "0.8qkl3ta7xwd" 1762000000004%Z);
   Render; Dispatch (EvInput "more"); Render;
   Dispatch (EvStreamEnd 0);
   Dispatch (EvSend "0.c2rmh51jd9e" 1762000009005%Z "0.1x7pzkq03ab" 1762000009006%Z)].

(** A delta keeps away from the user messages: when the event is a chunk
    for a suspended invocation, no user message carries the id of its
    placeholder. *)
Definition deltaSafe (e : REvent) (r : Rendered) : Prop :=
  match e with
  | Dispatch (EvChunk k _) =>
      ∀ b m, inflight (world r) !! k = Some b →
             m ∈ messages (ui (world r)) → role m = user → id m ≠ b
  | _ => True
  end.

Fixpoint deltasSafe (es : list REvent) (r : Rendered) : Prop :=
  match es with
  | [] => True
  | e :: es => deltaSafe e r ∧ deltasSafe es (rstep e r)
  end.

(** A failed send whose notice draws the first nine digits of the user
    message again. *)
Definition noticeCollides : list REvent :=
  [Dispatch (EvInput "Hi"); Render;
   Dispatch (EvSend "0.4fzyo82mvyr" 1762000000000%Z "0.8qkl3ta7xwd" 1762000000004%Z);
   Dispatch (EvChunk 0 (Some "Hel"));
   Dispatch (EvStreamError 0 "0.4fzyo82mvz3" 1762000002150%Z)].

(** A send on a fresh render, then typing while the stream is open. *)
Definition sendThenType : list REvent :=
  [Dispatch (EvInput "Hi"); Render;
   Dispatch (EvSend "0.4fzyo82mvyr" 1762000000000%Z "0.8qkl3ta7xwd" 1762000000004%Z);
   Render; Dispatch (EvInput "again"); Render].

End Closures.

(** * Properties *)

Import JsString types geminiService App.

(** ** Trimming *)

Section trim_facts.

Lemma truthy_false (s : string) : truthy s = false ↔ s = "".
Proof. destruct s; split; done. Qed.

Lemma truthy_true (s : string) : truthy s = true ↔ s ≠ "".
Proof. destruct s; split; done. Qed.

Lemma trimStart_head (s : string) (c : ascii) :
  head (trimStart s) = Some c → is_white_space c = false.
Proof.
  induction s as [|a r IH]; simpl; [done|].
  destruct (is_white_space a) eqn:Ha; [done|].
  simpl. by intros [= <-].
Qed.

Lemma trimStart_fixed (s : string) :
  (∀ c, head s = Some c → is_white_space c = false) → trimStart s = s.
Proof.
  destruct s as [|a r]; simpl; [done|].
  intros H. by rewrite (H a).
Qed.

Lemma trimEnd_head (s : string) (c : ascii) :
  head (trimEnd s) = Some c → head s = Some c.
Proof.
  destruct s as [|a r]; simpl; [done|].
  by destruct (is_white_space a && negb (truthy (trimEnd r))).
Qed.

Lemma trimEnd_last (s : string) (c : ascii) :
  last (trimEnd s) = Some c → is_white_space c = false.
Proof.
  induction s as [|a r IH]; simpl; [done|].
  destruct (is_white_space a) eqn:Ha; simpl.
  - destruct (trimEnd r) as [|b r'] eqn:Hr; simpl; [done|].
    exact IH.
  - destruct (trimEnd r) as [|b r'] eqn:Hr; simpl.
    + by intros [= <-].
    + exact IH.
Qed.

Lemma trimEnd_idem (s : string) : trimEnd (trimEnd s) = trimEnd s.
Proof.
  induction s as [|a r IH]; simpl; [done|].
  destruct (is_white_space a && negb (truthy (trimEnd r))) eqn:Hc; [done|].
  simpl. by rewrite IH, Hc.
Qed.

Lemma trim_head (s : string) (c : ascii) :
  head (trim s) = Some c → is_white_space c = false.
Proof. intros H. by eapply trimStart_head, trimEnd_head. Qed.

Lemma trim_idem (s : string) : trim (trim s) = trim s.
Proof.
  unfold trim at 1.
  rewrite (trimStart_fixed (trim s)) by apply trim_head.
  apply trimEnd_idem.
Qed.

Lemma trim_ws_free_ends (s : string) : ws_free_ends (trim s).
Proof. split; [apply trim_head | apply trimEnd_last]. Qed.

End trim_facts.

(** ** String concatenation *)

Section append_facts.

Lemma append_cons (c : ascii) (a b : string) :
  String c a +:+ b = String c (a +:+ b).
Proof. reflexivity. Qed.

Lemma append_empty_l (a : string) : "" +:+ a = a.
Proof. reflexivity. Qed.

Lemma append_empty_r (a : string) : a +:+ "" = a.
Proof.
  induction a as [|c a IH]; [done|].
  by rewrite append_cons, IH.
Qed.

Lemma append_associative (a b c : string) : (a +:+ b) +:+ c = a +:+ (b +:+ c).
Proof.
  induction a as [|x a IH]; [done|].
  by rewrite !append_cons, IH.
Qed.

Lemma truthy_append (a b : string) :
  truthy (a +:+ b) = truthy a || truthy b.
Proof. destruct a; [by rewrite append_empty_l | done]. Qed.

End append_facts.

(** ** The entry guard and the clear operation *)

Section guard_and_clear.

Lemma guard_true (s : State) :
  guard s = true ↔
  isLoading s = true ∨ (trim (input s) = "" ∧ attachment s = None).
Proof.
  unfold guard.
  rewrite orb_true_iff, andb_true_iff, !negb_true_iff, truthy_false.
  rewrite bool_decide_eq_false, <- eq_None_not_Some.
  tauto.
Qed.

Lemma guard_false (s : State) :
  guard s = false ↔
  isLoading s = false ∧ (trim (input s) ≠ "" ∨ is_Some (attachment s)).
Proof.
  unfold guard.
  rewrite orb_false_iff, andb_false_iff, !negb_false_iff, truthy_true.
  rewrite bool_decide_eq_true.
  tauto.
Qed.

(** C5. While the busy flag is set, or when the trimmed input is empty and
    no attachment is pending, [handleSend] returns the state it was given:
    no message, input, attachment, flag or other cell changes; in the event
    system the send event starts no invocation and draws no id. *)
Theorem handleSend_rejected_is_noop (env : SendEnv) (s : State) :
  isLoading s = true ∨ (trim (input s) = "" ∧ attachment s = None) →
  handleSend env s = s ∧
  ∀ w, ui w = s →
    step (EvSend (rnd_user env) (now_user env) (rnd_bot env) (now_bot env)) w = w.
Proof.
  intros Hg%guard_true. split.
  - unfold handleSend. by rewrite Hg.
  - intros w <-. simpl. by rewrite Hg.
Qed.

(** C4 as the code has it. [startNewChat] empties the conversation and the
    input buffer and unsets the pending attachment; the busy flag and the
    remaining cells keep their values. *)
Theorem startNewChat_resets (s : State) :
  messages (startNewChat s) = [] ∧
  attachment (startNewChat s) = None ∧
  input (startNewChat s) = "" ∧
  isLoading (startNewChat s) = isLoading s ∧
  isListening (startNewChat s) = isListening s ∧
  selectedModel (startNewChat s) = selectedModel s ∧
  isModelSelectorOpen (startNewChat s) = isModelSelectorOpen s.
Proof. done. Qed.

(** C4 as the specification words it fails: a busy flag that is set stays
    set across [startNewChat]. *)
Lemma startNewChat_keeps_busy :
  isLoading (startNewChat (setIsLoading true initialState)) = true ∧
  ¬ (messages (startNewChat (setIsLoading true initialState)) = [] ∧
     attachment (startNewChat (setIsLoading true initialState)) = None ∧
     isLoading (startNewChat (setIsLoading true initialState)) = false).
Proof. split; [done|]. by intros (_ & _ & Hb). Qed.

End guard_and_clear.

(** ** The pieces of one invocation *)

Section invocation.

Lemma appendChunk_id (b t : string) (m : Message) : id (appendChunk b t m) = id m.
Proof. unfold appendChunk. by case_decide. Qed.

Lemma appendChunk_role (b t : string) (m : Message) :
  role (appendChunk b t m) = role m.
Proof. unfold appendChunk. by case_decide. Qed.

Lemma appendChunk_timestamp (b t : string) (m : Message) :
  timestamp (appendChunk b t m) = timestamp m.
Proof. unfold appendChunk. by case_decide. Qed.

Lemma appendChunk_attachment (b t : string) (m : Message) :
  types.attachment (appendChunk b t m) = types.attachment m.
Proof. unfold appendChunk. by case_decide. Qed.

Lemma appendChunk_other (b t : string) (m : Message) :
  id m ≠ b → appendChunk b t m = m.
Proof. intros. unfold appendChunk. by case_decide. Qed.

Lemma appendChunk_text (b t : string) (m : Message) :
  id m = b → text (appendChunk b t m) = text m +:+ t.
Proof. intros. unfold appendChunk. by case_decide. Qed.

Lemma appendChunk_empty (b : string) (m : Message) : appendChunk b "" m = m.
Proof.
  unfold appendChunk. case_decide; [|done].
  destruct m; simpl. by rewrite append_empty_r.
Qed.

Lemma appendChunk_twice (b t1 t2 : string) (m : Message) :
  appendChunk b t2 (appendChunk b t1 m) = appendChunk b (t1 +:+ t2) m.
Proof.
  destruct (decide (id m = b)) as [Hm|Hm].
  - unfold appendChunk. destruct (decide (id m = b)); [simpl|done].
    destruct (decide (id m = b)); [|done]. by rewrite append_associative.
  - by rewrite !(appendChunk_other _ _ _ Hm).
Qed.

(** A chunk rewrites the conversation and nothing else. *)
Lemma onChunk_messages (b : string) (c : option string) (s : State) :
  messages (onChunk b c s) = appendChunk b (default "" c) <$> messages s.
Proof.
  destruct c as [[|x t]|]; simpl; [| done |];
    (rewrite <- (list_fmap_id (messages s)) at 1;
     apply list_fmap_ext; intros; by rewrite appendChunk_empty).
Qed.

Lemma onChunk_cells (b : string) (c : option string) (s : State) :
  input (onChunk b c s) = input s ∧
  isLoading (onChunk b c s) = isLoading s ∧
  isListening (onChunk b c s) = isListening s ∧
  selectedModel (onChunk b c s) = selectedModel s ∧
  isModelSelectorOpen (onChunk b c s) = isModelSelectorOpen s ∧
  attachment (onChunk b c s) = attachment s.
Proof. by destruct c as [[|x t]|]. Qed.

Lemma onChunk_skipped (b : string) (c : option string) (s : State) :
  c = None ∨ c = Some "" → onChunk b c s = s.
Proof. by intros [-> | ->]. Qed.

Lemma onChunk_twice (b t1 t2 : string) (s : State) :
  onChunk b (Some t2) (onChunk b (Some t1) s) = onChunk b (Some (t1 +:+ t2)) s.
Proof.
  destruct t1 as [|x1 t1]; [done|].
  destruct t2 as [|x2 t2]; simpl.
  - by rewrite append_empty_r.
  - unfold setMessages; simpl. f_equal.
    rewrite <- list_fmap_compose. apply list_fmap_ext.
    intros i m _. simpl. by rewrite appendChunk_twice.
Qed.

Lemma onChunk_default (b : string) (c : option string) (s : State) :
  onChunk b c s = onChunk b (Some (default "" c)) s.
Proof. by destruct c. Qed.

Lemma onChunks_cons (b : string) (c : option string) (cs : list (option string))
    (s : State) :
  onChunks b (c :: cs) s = onChunks b cs (onChunk b c s).
Proof. reflexivity. Qed.

Lemma onChunks_isLoading (b : string) (cs : list (option string)) (s : State) :
  isLoading (onChunks b cs s) = isLoading s.
Proof.
  revert s. induction cs as [|c cs IH]; intros s; [done|].
  rewrite onChunks_cons, IH. apply onChunk_cells.
Qed.

(** The prologue appends the user message and the empty placeholder, in
    that order, sets the busy flag and clears both inputs. *)
Lemma sendPrologue_messages (ru : string) (tu : Date) (rb : string) (tb : Date)
    (s : State) :
  messages (sendPrologue ru tu rb tb s) =
    messages s ++ [userMsg ru tu s; botMsg (generateId rb) tb].
Proof. simpl. by rewrite <- (assoc_L (++)). Qed.

Lemma sendPrologue_cells (ru : string) (tu : Date) (rb : string) (tb : Date)
    (s : State) :
  input (sendPrologue ru tu rb tb s) = "" ∧
  attachment (sendPrologue ru tu rb tb s) = None ∧
  isLoading (sendPrologue ru tu rb tb s) = true.
Proof. done. Qed.

Lemma onChunks_messages (b : string) (cs : list (option string)) (s : State) :
  messages (onChunks b cs s) = appendChunk b (chunksText cs) <$> messages s.
Proof.
  revert s. induction cs as [|c cs IH]; intros s.
  - simpl. rewrite <- (list_fmap_id (messages s)) at 1.
    apply list_fmap_ext. intros. by rewrite appendChunk_empty.
  - rewrite onChunks_cons, IH, onChunk_messages, <- list_fmap_compose.
    apply list_fmap_ext. intros i m _. simpl. apply appendChunk_twice.
Qed.

(** When the stream stops, the placeholder sits right after the user
    message of this invocation. *)
Lemma atStreamStop_placeholder (env : SendEnv) (s : State) :
  ∃ p, messages (atStreamStop env s) !! S (length (messages s)) = Some p ∧
       id p = botMsgId env ∧ role p = model.
Proof.
  assert (messages (prologue env s) !! S (length (messages s))
          = Some (botMsg (botMsgId env) (now_bot env))) as Hp.
  { unfold prologue. rewrite sendPrologue_messages.
    rewrite lookup_app_r by lia.
    by replace (S (length (messages s)) - length (messages s))%nat with 1%nat by lia. }
  unfold atStreamStop. destruct (stream env) as [|cs e].
  - eexists. split; [exact Hp | done].
  - rewrite onChunks_messages, list_lookup_fmap, Hp. simpl.
    eexists. split; [done|]. by rewrite appendChunk_id, appendChunk_role.
Qed.

End invocation.

(** ** Streaming accumulation *)

Section streaming.

Lemma onChunks_as_one (b : string) (cs : list (option string)) (s : State) :
  onChunks b cs s = onChunk b (Some (chunksText cs)) s.
Proof.
  revert s. induction cs as [|c cs IH]; intros s; [done|].
  rewrite onChunks_cons, IH, (onChunk_default b c). simpl chunksText.
  apply onChunk_twice.
Qed.

(** C3. Feeding the fragments one by one is feeding their concatenation at
    once: the conversation after the fragments is the conversation before
    them with the concatenated text appended to the placeholder, so the
    placeholder's text is its initial text followed by all fragments in
    arrival order; ["Hel"] then ["lo"] is ["Hello"]. *)
Theorem onChunks_concatenation (b : string) (cs : list (option string))
    (s : State) :
  onChunks b cs s = onChunks b [Some (chunksText cs)] s ∧
  (∀ i m, messages s !! i = Some m → id m = b →
     text <$> messages (onChunks b cs s) !! i = Some (text m +:+ chunksText cs)) ∧
  (∀ i m, messages s !! i = Some m → id m ≠ b →
     messages (onChunks b cs s) !! i = Some m) ∧
  onChunks b [Some "Hel"; Some "lo"] s = onChunks b [Some "Hello"] s.
Proof.
  split; [apply onChunks_as_one|].
  rewrite !onChunks_as_one, onChunk_messages. simpl.
  split; [|split; [|done]]; intros i m Hi Hm; rewrite list_lookup_fmap, Hi; simpl.
  - by rewrite appendChunk_text.
  - by rewrite appendChunk_other.
Qed.

(** C10. One streamed delta changes nothing but the text of the messages
    that carry the placeholder's id: the conversation keeps its length and
    order, every message keeps its id, role, timestamp and attachment,
    a message with another id is untouched, the busy flag and the other
    cells are unchanged; a delta with an empty or undefined text leaves
    the whole state as it is. *)
Theorem onChunk_frame (b : string) (c : option string) (s : State) :
  length (messages (onChunk b c s)) = length (messages s) ∧
  (∀ i m, messages s !! i = Some m →
     ∃ m', messages (onChunk b c s) !! i = Some m' ∧
       id m' = id m ∧ role m' = role m ∧ timestamp m' = timestamp m ∧
       types.attachment m' = types.attachment m ∧
       (id m ≠ b → m' = m) ∧
       (id m = b → text m' = text m +:+ default "" c)) ∧
  isLoading (onChunk b c s) = isLoading s ∧
  input (onChunk b c s) = input s ∧
  attachment (onChunk b c s) = attachment s ∧
  isListening (onChunk b c s) = isListening s ∧
  selectedModel (onChunk b c s) = selectedModel s ∧
  isModelSelectorOpen (onChunk b c s) = isModelSelectorOpen s ∧
  (c = None ∨ c = Some "" → onChunk b c s = s).
Proof.
  destruct (onChunk_cells b c s) as (Hi & Hl & Hli & Hm & Ho & Ha).
  rewrite onChunk_messages, length_fmap.
  repeat split; try done; [|apply onChunk_skipped].
  intros i m Him. exists (appendChunk b (default "" c) m).
  rewrite list_lookup_fmap, Him.
  repeat split;
    auto using appendChunk_id, appendChunk_role, appendChunk_timestamp,
      appendChunk_attachment, appendChunk_other, appendChunk_text.
Qed.

End streaming.

(** ** Termination of an invocation *)

Section termination.

Lemma handleSend_accepted (env : SendEnv) (s : State) :
  guard s = false →
  handleSend env s =
    onFinally
      (if streamFails (stream env)
       then onCatch (rnd_err env) (now_err env) (atStreamStop env s)
       else atStreamStop env s).
Proof. intros Hg. unfold handleSend. by rewrite Hg. Qed.

(** C2. An invocation that passes the guard sets the busy flag in its
    prologue, holds it over every chunk up to the moment the stream
    stops, and ends with the flag cleared, whether the stream completes,
    cannot be opened, or throws after any number of chunks; and the event
    that ends a suspended invocation, normally or by an error, clears the
    flag whatever the state has become in between. *)
Theorem handleSend_releases_busy (env : SendEnv) (s : State) :
  guard s = false →
  isLoading (prologue env s) = true ∧
  isLoading (atStreamStop env s) = true ∧
  isLoading (handleSend env s) = false ∧
  ∀ w k, is_Some (inflight w !! k) →
    isLoading (ui (step (EvStreamEnd k) w)) = false ∧
    ∀ re te, isLoading (ui (step (EvStreamError k re te) w)) = false.
Proof.
  intros Hg. split; [done|]. split; [|split].
  - unfold atStreamStop. destruct (stream env) as [|cs e]; [done|].
    by rewrite onChunks_isLoading.
  - by rewrite handleSend_accepted.
  - intros w k [b Hb]. simpl. by rewrite Hb.
Qed.

Lemma handleSend_releases_busy_witness :
  guard (typed "Hi") = false ∧
  isLoading (atStreamStop (sampleEnv (Opens [Some "He"; Some "llo!"] Completes))
               (typed "Hi")) = true ∧
  isLoading (handleSend (sampleEnv (Opens [Some "He"; Some "llo!"] Completes))
               (typed "Hi")) = false.
Proof.
  split; [reflexivity|].
  destruct (handleSend_releases_busy
              (sampleEnv (Opens [Some "He"; Some "llo!"] Completes))
              (typed "Hi") eq_refl) as (_ & Hs & Hf & _).
  by split.
Defined.

(** The same in the event system: the event that ends a suspended
    invocation, normally or by an error, clears the busy flag. *)
Lemma step_end_releases_busy (w : World) (k : nat) :
  is_Some (inflight w !! k) →
  isLoading (ui (step (EvStreamEnd k) w)) = false ∧
  ∀ re te, isLoading (ui (step (EvStreamError k re te) w)) = false.
Proof. intros [b Hb]. simpl. by rewrite Hb. Qed.

(** C1. When the stream cannot be opened or throws after some chunks, the
    invocation appends one model message holding the failure notice to
    the conversation as it stood when the stream stopped: every message
    of that moment is kept as it was, in particular the placeholder with
    the text it had accumulated, and the conversation is longer by
    exactly one. *)
Theorem handleSend_failure_appends_notice (env : SendEnv) (s : State) :
  guard s = false →
  stream env = OpenFails ∨ (∃ chunks, stream env = Opens chunks Throws) →
  ∃ m,
    messages (handleSend env s) = messages (atStreamStop env s) ++ [m] ∧
    role m = model ∧
    text m = "I'm having trouble connecting right now. Please try again." ∧
    types.attachment m = None ∧
    length (messages (handleSend env s)) =
      S (length (messages (atStreamStop env s))) ∧
    (∀ i m', messages (atStreamStop env s) !! i = Some m' →
             messages (handleSend env s) !! i = Some m') ∧
    ∃ p, messages (atStreamStop env s) !! S (length (messages s)) = Some p ∧
         id p = botMsgId env ∧
         messages (handleSend env s) !! S (length (messages s)) = Some p.
Proof.
  intros Hg Hf. rewrite handleSend_accepted by done.
  assert (streamFails (stream env) = true) as -> by (by destruct Hf as [->|[cs ->]]).
  exists (errorMsg (rnd_err env) (now_err env)). simpl.
  repeat split; try done.
  - rewrite length_app. simpl. lia.
  - intros i m' Hi. by apply lookup_app_l_Some.
  - destruct (atStreamStop_placeholder env s) as (p & Hp & Hid & _).
    exists p. repeat split; try done. by apply lookup_app_l_Some.
Qed.

End termination.

Section termination_examples.

Lemma handleSend_failure_appends_notice_witness :
  guard (typed "Hi") = false ∧
  (stream (sampleEnv (Opens [Some "Hel"] Throws)) = OpenFails ∨
   ∃ chunks, stream (sampleEnv (Opens [Some "Hel"] Throws)) = Opens chunks Throws) ∧
  ∃ m,
    messages (handleSend (sampleEnv (Opens [Some "Hel"] Throws)) (typed "Hi")) =
      messages (atStreamStop (sampleEnv (Opens [Some "Hel"] Throws)) (typed "Hi"))
        ++ [m] ∧
    text m = "I'm having trouble connecting right now. Please try again.".
Proof.
  assert (guard (typed "Hi") = false) as Hg by reflexivity.
  assert (stream (sampleEnv (Opens [Some "Hel"] Throws)) = OpenFails ∨
          ∃ chunks, stream (sampleEnv (Opens [Some "Hel"] Throws))
                    = Opens chunks Throws) as Hf
    by (right; by exists [Some "Hel"]).
  split; [exact Hg|]. split; [exact Hf|].
  destruct (handleSend_failure_appends_notice _ _ Hg Hf) as (m & Hm & _ & Ht & _).
  by exists m.
Defined.

(** The failure scenario of the specification: the placeholder keeps
    ["Hel"] and the notice is a third message. *)
Example failure_after_Hel :
  text <$> messages (handleSend (sampleEnv (Opens [Some "Hel"] Throws)) (typed "Hi"))
  = ["Hi"; "Hel"; "I'm having trouble connecting right now. Please try again."] ∧
  text <$> messages (atStreamStop (sampleEnv (Opens [Some "Hel"] Throws)) (typed "Hi"))
  = ["Hi"; "Hel"].
Proof. split; reflexivity. Qed.

(** The success scenario of the specification. *)
Example success_Hello :
  (λ m, (role m, text m)) <$>
    messages (handleSend (sampleEnv (Opens [Some "He"; Some "llo!"] Completes))
                (typed "Hi"))
  = [(user, "Hi"); (model, "Hello!")] ∧
  isLoading (handleSend (sampleEnv (Opens [Some "He"; Some "llo!"] Completes))
               (typed "Hi")) = false.
Proof. split; reflexivity. Qed.

Lemma handleSend_rejected_is_noop_witness :
  (isLoading (setIsLoading true (typed "Hi")) = true ∨
   (trim (input (setIsLoading true (typed "Hi"))) = "" ∧
    attachment (setIsLoading true (typed "Hi")) = None)) ∧
  handleSend (sampleEnv (Opens [Some "Hello"] Completes))
    (setIsLoading true (typed "Hi")) = setIsLoading true (typed "Hi").
Proof.
  split; [by left|].
  apply (handleSend_rejected_is_noop (sampleEnv (Opens [Some "Hello"] Completes))).
  by left.
Defined.

End termination_examples.

(** ** The request *)

Section request_facts.

Lemma historyParts_specParts (m : Message) : historyParts m = specParts m.
Proof.
  unfold historyParts, specParts.
  destruct (types.attachment m) as [a|], (text m) as [|c t]; done.
Qed.

(** C7. The context of the request is the conversation the handler was
    rendered with, message by message and in order: each entry has the
    role of its message and parts made of an inline-data part first
    exactly when the message has an attachment, then a text part exactly
    when its text is not empty.  The user message and the placeholder that
    this invocation appends are not part of it. *)
Theorem request_history (s : State) :
  rq_history (request s) =
    (λ m, {| c_role := role m; parts := specParts m |}) <$> messages s ∧
  length (rq_history (request s)) = length (messages s) ∧
  (∀ i m, messages s !! i = Some m →
     ∃ h, rq_history (request s) !! i = Some h ∧
       c_role h = role m ∧
       (∀ a, types.attachment m = Some a → parts h !! 0%nat = Some (inlinePart a)) ∧
       (types.attachment m = None → ∀ p, p ∈ parts h → is_inline p = false) ∧
       (text m ≠ "" → list.last (parts h) = Some (textPart (text m))) ∧
       (text m = "" → ∀ p, p ∈ parts h → is_text p = false) ∧
       length (parts h) =
         ((if types.attachment m is Some _ then 1 else 0) +
          (if decide (text m = "") then 0 else 1))%nat) ∧
  (∀ ru tu rb tb,
     length (messages (sendPrologue ru tu rb tb s)) =
       (length (rq_history (request s)) + 2)%nat).
Proof.
  assert (rq_history (request s) =
    (λ m, {| c_role := role m; parts := specParts m |}) <$> messages s) as Hh.
  { unfold request, sendMessageToGeminiStream, history. simpl.
    rewrite <- list_fmap_compose. apply list_fmap_ext.
    intros i m _. simpl. by rewrite historyParts_specParts. }
  rewrite Hh, length_fmap. repeat split.
  - intros i m Hi. eexists. rewrite list_lookup_fmap, Hi. simpl.
    split; [done|]. simpl. unfold specParts.
    destruct (types.attachment m) as [a|], (text m) as [|c t]; simpl;
      repeat split; try done;
      intros; repeat match goal with
        | H : _ ∈ [] |- _ => by apply elem_of_nil in H
        | H : _ ∈ _ :: _ |- _ => apply elem_of_cons in H as [->|H]
        end; try done; congruence.
  - intros. simpl. rewrite !length_app. simpl. lia.
Qed.

(** C6. With an attachment pending, the new turn is sent as an array whose
    first part is the inline image and whose text part comes after it,
    whatever the prompt; and a send with an attachment and a blank input
    passes the guard and appends a user message with that attachment and
    the empty text. *)
Theorem send_with_attachment (s : State) (a : Attachment) :
  attachment s = Some a →
  (∀ prompt history modelName,
     ∃ ps, rq_message (sendMessageToGeminiStream prompt history modelName (Some a))
           = PartArray ps ∧
       ps !! 0%nat = Some (inlinePart a) ∧
       (∀ i j p q, ps !! i = Some p → is_inline p = true →
                   ps !! j = Some q → is_text q = true → (i < j)%nat)) ∧
  rq_message (request s) = PartArray [inlinePart a; textPart (trim (input s))] ∧
  (isLoading s = false → trim (input s) = "" →
   guard s = false ∧
   ∀ ru tu rb tb, ∃ um,
     messages (sendPrologue ru tu rb tb s) =
       messages s ++ [um; botMsg (generateId rb) tb] ∧
     role um = user ∧ text um = "" ∧ types.attachment um = Some a).
Proof.
  intros Ha. split; [|split].
  - intros prompt hist mn. eexists. split; [reflexivity|]. split; [done|].
    intros [|[|i]] [|[|j]] p q Hp Hip Hq Hiq; simplify_eq/=; try done; lia.
  - unfold request, sendMessageToGeminiStream. by rewrite Ha.
  - intros Hl Ht. split.
    + apply guard_false. rewrite Ha. eauto.
    + intros ru tu rb tb. exists (userMsg ru tu s). simpl.
      rewrite <- (assoc_L (++)). simpl. by rewrite Ht, Ha.
Qed.

Lemma send_with_attachment_witness :
  attachment (onFileLoaded sampleImage (typed "  ")) = Some sampleImage ∧
  rq_message (request (onFileLoaded sampleImage (typed "  "))) =
    PartArray [inlinePart sampleImage; textPart ""] ∧
  guard (onFileLoaded sampleImage (typed "  ")) = false.
Proof.
  split; [reflexivity|].
  destruct (send_with_attachment (onFileLoaded sampleImage (typed "  "))
              sampleImage eq_refl) as (_ & Hr & Hp).
  split; [exact Hr|]. by apply Hp.
Defined.

End request_facts.

(** ** Reachable states of the event system *)

Section reachability.

Lemma reachable_run (es : list Event) (w : World) :
  reachable w → reachable (run es w).
Proof.
  revert w. induction es as [|e es IH]; intros w Hw; [done|].
  apply IH. by constructor.
Qed.

Lemma step_drawn (e : Event) (w : World) :
  ∃ l, drawn (step e w) = drawn w ++ l.
Proof.
  destruct e; simpl;
    repeat match goal with
      | |- context [guard ?s] => destruct (guard s)
      | |- context [inflight ?w !! ?k] => destruct (inflight w !! k)
      end; simpl; eauto using app_nil_r.
  all: by exists [].
Qed.
End reachability.

(** ** What every step maintains *)

Section invariants.

Local Ltac in_list := rewrite ?elem_of_cons; tauto.

Lemma tracked_init : tracked initialWorld.
Proof.
  split; simpl; [apply sublist_nil_l | by intros b ?%elem_of_nil
                | by intros m ?%elem_of_nil | constructor].
Qed.

(** A handler that leaves the conversation alone preserves [tracked]. *)
Lemma tracked_onUi (f : State → State) (w : World) :
  messages (f (ui w)) = messages (ui w) → tracked w → tracked (onUi f w).
Proof. intros Hm [? ? ? ?]. split; simpl; by rewrite ?Hm. Qed.

Lemma tracked_newChat (w : World) : tracked w → tracked (onUi startNewChat w).
Proof.
  intros [? ? ? ?]. split; simpl;
    [apply sublist_nil_l | done | by intros m ?%elem_of_nil | constructor].
Qed.

Lemma userMsg_ok (ru : string) (tu : Date) (s : State) :
  guard s = false → userMsgOk (userMsg ru tu s).
Proof.
  intros [_ Hg]%guard_false _. simpl.
  split; [apply trim_idem|]. split; [apply trim_ws_free_ends | done].
Qed.

Lemma ids_onChunk (b : string) (c : option string) (s : State) :
  ids (messages (onChunk b c s)) = ids (messages s).
Proof.
  rewrite onChunk_messages. unfold ids. rewrite <- list_fmap_compose.
  apply list_fmap_ext. intros i m _. simpl. apply appendChunk_id.
Qed.

Lemma tracked_chunk (k : nat) (b : string) (c : option string) (w : World) :
  inflight w !! k = Some b → tracked w → tracked (onUi (onChunk b c) w).
Proof.
  intros Hk [Hi Hf Hu Ho]. split; simpl.
  - by rewrite ids_onChunk.
  - done.
  - rewrite onChunk_messages. intros m' (m & -> & Hm)%list_elem_of_fmap.
    rewrite appendChunk_role, appendChunk_id. by apply Hu.
  - rewrite onChunk_messages, Forall_fmap.
    rewrite Forall_forall in Ho |- *. intros m Hm. simpl.
    destruct (role m) eqn:Hr.
    + rewrite appendChunk_other; [by apply Ho|].
      intros Heq. apply (Hu m Hm Hr). rewrite Heq.
      by eapply list_elem_of_lookup_2.
    + intros Hr'. by rewrite appendChunk_role, Hr in Hr'.
Qed.

Lemma tracked_send (ru : string) (tu : Date) (rb : string) (tb : Date) (w : World) :
  guard (ui w) = false →
  NoDup (drawn w ++ [generateId ru; generateId rb]) →
  tracked w →
  tracked {| ui := sendPrologue ru tu rb tb (ui w);
             inflight := inflight w ++ [generateId rb];
             drawn := drawn w ++ [generateId ru; generateId rb] |}.
Proof.
  intros Hg (_ & Hfresh & Hub)%NoDup_app [Hi Hf Hu Ho].
  apply NoDup_cons in Hub as [Hub _].
  rewrite list_elem_of_singleton in Hub.
  split; simpl.
  - unfold ids. rewrite <- (assoc_L (++)), fmap_app. simpl.
    by apply sublist_app.
  - intros b [Hb | ->%list_elem_of_singleton]%elem_of_app;
      rewrite elem_of_app; [by left; apply Hf|].
    right. in_list.
  - intros m. rewrite <- (assoc_L (++)), elem_of_app. simpl.
    intros [Hm | Hm] Hr [Hin | Heq%list_elem_of_singleton]%elem_of_app.
    + by apply (Hu m).
    + apply (Hfresh (id m)); [|rewrite Heq; in_list].
      eapply elem_of_sublist; [|exact Hi]. by apply list_elem_of_fmap_2.
    + apply elem_of_cons in Hm as [-> | ->%list_elem_of_singleton]; [|done].
      apply (Hfresh (generateId ru)); [by apply Hf | in_list].
    + apply elem_of_cons in Hm as [-> | ->%list_elem_of_singleton]; done.
  - rewrite <- (assoc_L (++)). apply Forall_app. split; [done|].
    apply Forall_cons. split; [by apply userMsg_ok|].
    apply Forall_cons. split; [done | constructor].
Qed.

Lemma tracked_delete (k : nat) (s : State) (w : World) (d : list string) :
  messages s = messages (ui w) → tracked w →
  tracked {| ui := s; inflight := delete k (inflight w); drawn := drawn w ++ d |}.
Proof.
  intros Hm [Hi Hf Hu Ho]. split; simpl; rewrite ?Hm.
  - by apply sublist_inserts_r.
  - intros b Hb%list_elem_of_delete_inv. apply elem_of_app. auto.
  - intros m Hin Hr Hd%list_elem_of_delete_inv. by apply (Hu m).
  - done.
Qed.

Lemma tracked_error (k : nat) (re : string) (te : Date) (w : World) :
  tracked w →
  tracked {| ui := onFinally (onCatch re te (ui w));
             inflight := delete k (inflight w);
             drawn := drawn w ++ [generateId re] |}.
Proof.
  intros [Hi Hf Hu Ho]. split; simpl.
  - unfold ids. rewrite fmap_app. by apply sublist_app.
  - intros b Hb%list_elem_of_delete_inv. apply elem_of_app. auto.
  - intros m [Hin | ->%list_elem_of_singleton]%elem_of_app Hr; [|done].
    intros Hd%list_elem_of_delete_inv. by apply (Hu m).
  - apply Forall_app. split; [done|]. by apply Forall_singleton.
Qed.

Lemma tracked_step (e : Event) (w : World) :
  NoDup (drawn (step e w)) → tracked w → tracked (step e w).
Proof.
  intros Hnd Hw. destruct e; simpl in *;
    try (by apply tracked_onUi); [by apply tracked_newChat | | | |].
  - destruct (guard (ui w)) eqn:Hg; [done|]. by apply tracked_send.
  - destruct (inflight w !! k) as [b|] eqn:Hk; [|done].
    by eapply tracked_chunk.
  - destruct (inflight w !! k) as [b|] eqn:Hk; [|done].
    rewrite <- (app_nil_r (drawn w)). by apply tracked_delete.
  - destruct (inflight w !! k) as [b|] eqn:Hk; [|done].
    by apply tracked_error.
Qed.

Lemma reachable_tracked (w : World) :
  reachable w → NoDup (drawn w) → tracked w.
Proof.
  induction 1 as [|e w Hw IH]; intros Hnd; [apply tracked_init|].
  apply tracked_step; [done|]. apply IH.
  destruct (step_drawn e w) as [l Hl]. rewrite Hl in Hnd.
  by apply NoDup_app in Hnd as [? _].
Qed.

End invariants.

(** ** The event system agrees with the uninterrupted invocation *)

Section adequacy.

Lemma run_app (es1 es2 : list Event) (w : World) :
  run (es1 ++ es2) w = run es2 (run es1 w).
Proof. apply foldl_app. Qed.

Lemma run_chunks (b : string) (cs : list (option string)) (w : World) :
  inflight w !! 0%nat = Some b →
  run (EvChunk 0 <$> cs) w = onUi (onChunks b cs) w.
Proof.
  revert w. induction cs as [|c cs IH]; intros w Hb.
  - by destruct w.
  - change (run (EvChunk 0 <$> c :: cs) w)
      with (run (EvChunk 0 <$> cs) (step (EvChunk 0 c) w)).
    simpl step. rewrite Hb, IH by done. reflexivity.
Qed.

Lemma run_chunks_idle (cs : list (option string)) (w : World) :
  inflight w !! 0%nat = None → run (EvChunk 0 <$> cs) w = w.
Proof.
  intros Hb. induction cs as [|c cs IH]; [done|].
  change (run (EvChunk 0 <$> c :: cs) w)
    with (run (EvChunk 0 <$> cs) (step (EvChunk 0 c) w)).
  simpl step. by rewrite Hb.
Qed.

(** X17. With no other invocation in flight and no other event in between,
    the events of one send (the send, each chunk, the end or the error)
    leave the state that [handleSend] computes as a whole. *)
Lemma run_sendEvents (env : SendEnv) (w : World) :
  inflight w = [] → ui (run (sendEvents env) w) = handleSend env (ui w).
Proof.
  intros Hidle. unfold sendEvents, handleSend, atStreamStop.
  change (run (?e :: ?es) w) with (run es (step e w)). simpl step.
  destruct (guard (ui w)) eqn:Hg.
  - assert (inflight w !! 0%nat = None) as Hn by (by rewrite Hidle).
    destruct (stream env) as [|cs e].
    + unfold run; simpl. by rewrite Hn.
    + rewrite run_app, run_chunks_idle by done.
      destruct e; unfold run; simpl; by rewrite Hn.
  - rewrite Hidle. destruct (stream env) as [|cs e]; [done|].
    rewrite run_app, (run_chunks (botMsgId env)) by done.
    by destruct e.
Qed.

(** At most one invocation is suspended at any time, and the busy flag is
    set while it is. *)
Lemma reachable_exclusive (w : World) :
  reachable w →
  inflight w = [] ∨ ∃ b, inflight w = [b] ∧ isLoading (ui w) = true.
Proof.
  induction 1 as [|e w Hw IH]; [by left|].
  destruct e; simpl; try done.
  - destruct (guard (ui w)) eqn:Hg; [done|].
    apply guard_false in Hg as [Hl _].
    destruct IH as [-> | (b & _ & Hb)]; [|congruence].
    right. by eexists.
  - destruct (inflight w !! k) as [b|] eqn:Hk; [|done]. simpl.
    destruct IH as [Hi | (b' & Hi & Hl)]; [by left|].
    right. exists b'. split; [done|].
    by rewrite (proj1 (proj2 (onChunk_cells b chunkText (ui w)))).
  - destruct (inflight w !! k) as [b|] eqn:Hk; [|done]. simpl.
    destruct IH as [Hi | (b' & Hi & Hl)]; rewrite Hi in Hk |- *; [done|].
    destruct k; [by left | done].
  - destruct (inflight w !! k) as [b|] eqn:Hk; [|done]. simpl.
    destruct IH as [Hi | (b' & Hi & Hl)]; rewrite Hi in Hk |- *; [done|].
    destruct k; [by left | done].
Qed.

(** The failure event, whatever happened since the send: one notice is
    appended to the conversation of that moment. *)
Lemma step_error_appends_notice (w : World) (k : nat) (re : string) (te : Date) :
  is_Some (inflight w !! k) →
  messages (ui (step (EvStreamError k re te) w)) =
    messages (ui w) ++ [errorMsg re te].
Proof. intros [b Hb]. simpl. by rewrite Hb. Qed.

End adequacy.

(** ** Identifiers and user messages in every reachable state *)

Section reachable_claims.

(** C8 as the code has it. [generateId] keeps nine digits of a random
    number and checks nothing, so the ids are distinct only as far as its
    results are: in every state reached by any sequence of events, if the
    ids drawn so far are pairwise distinct, then so are the ids of the
    messages of the conversation. *)
Theorem conversation_ids_distinct (w : World) :
  reachable w → NoDup (drawn w) → NoDup (ids (messages (ui w))).
Proof.
  intros Hw Hnd. eapply sublist_NoDup; [exact Hnd|].
  by apply reachable_tracked.
Qed.

Lemma conversation_ids_distinct_witness :
  reachable (run sampleFailedSend initialWorld) ∧
  NoDup (drawn (run sampleFailedSend initialWorld)) ∧
  NoDup (ids (messages (ui (run sampleFailedSend initialWorld)))).
Proof.
  assert (reachable (run sampleFailedSend initialWorld)) as Hr
    by apply reachable_run, reachable_init.
  assert (NoDup (drawn (run sampleFailedSend initialWorld))) as Hd
    by (vm_compute; compute_done).
  split; [exact Hr|]. split; [exact Hd|].
  exact (conversation_ids_distinct _ Hr Hd).
Defined.

(** C8 as the specification words it fails: two different random numbers
    with the same first nine digits give the user message and the
    placeholder the same id. *)
Lemma generateId_collides :
  "0.4fzyo82mvyr" ≠ "0.4fzyo82mvz3" ∧
  generateId "0.4fzyo82mvyr" = generateId "0.4fzyo82mvz3" ∧
  reachable (run collidingSend initialWorld) ∧
  ids (messages (ui (run collidingSend initialWorld))) = ["4fzyo82mv"; "4fzyo82mv"] ∧
  ¬ NoDup (ids (messages (ui (run collidingSend initialWorld)))).
Proof.
  split; [done|]. split; [reflexivity|].
  split; [apply reachable_run, reachable_init|].
  split; [reflexivity|].
  vm_compute. intros [Hn _]%NoDup_cons. apply Hn. by left.
Qed.

(** C9 as the specification words it fails: when the placeholder's id is
    also the id of a user message, a delta is appended to the user's text
    as well, here leaving it with a trailing space. *)
Lemma delta_rewrites_user_message :
  reachable (run collidingSend initialWorld) ∧
  Forall userMsgOk (messages (ui (run collidingSend initialWorld))) ∧
  reachable (step (EvChunk 0 (Some "Hello ")) (run collidingSend initialWorld)) ∧
  (λ m, (role m, text m)) <$>
    messages (ui (step (EvChunk 0 (Some "Hello ")) (run collidingSend initialWorld)))
  = [(user, "HiHello "); (model, "Hello ")] ∧
  ¬ Forall userMsgOk
      (messages (ui (step (EvChunk 0 (Some "Hello "))
                       (run collidingSend initialWorld)))).
Proof.
  split; [apply reachable_run, reachable_init|].
  split.
  { vm_compute messages. apply Forall_cons. split; [|by apply Forall_singleton].
    intros _. simpl. split; [reflexivity|]. split; [|by left].
    split; simpl; by intros c [= <-]. }
  split; [apply reachable_step, reachable_run, reachable_init|].
  split; [reflexivity|].
  vm_compute messages. intros [Hu _]%Forall_cons.
  destruct (Hu eq_refl) as [Ht _]. vm_compute in Ht. discriminate Ht.
Qed.

End reachable_claims.

(** ** The event system with the render that handlers belong to *)

Import Closures.

Section rendered_system.

Lemma sendPrologueFrom_current (ru : string) (tu : Date) (rb : string) (tb : Date)
    (s : State) :
  sendPrologueFrom s ru tu rb tb s = sendPrologue ru tu rb tb s.
Proof. reflexivity. Qed.

Lemma sendPrologueFrom_messages (c : State) (ru : string) (tu : Date)
    (rb : string) (tb : Date) (s : State) :
  messages (sendPrologueFrom c ru tu rb tb s) =
    messages s ++ [userMsg ru tu c; botMsg (generateId rb) tb].
Proof. simpl. by rewrite <- (assoc_L (++)). Qed.

Lemma rrun_snoc (es : list REvent) (e : REvent) (r : Rendered) :
  rrun (es ++ [e]) r = rstep e (rrun es r).
Proof. unfold rrun. by rewrite foldl_app. Qed.

(** On a render of the current state a dispatched event is a [step]. *)
Lemma rstep_rendered (e : Event) (r : Rendered) :
  closure r = ui (world r) → world (rstep (Dispatch e) r) = step e (world r).
Proof.
  intros Hc. destruct e; try done. simpl. rewrite Hc.
  by destruct (guard (ui (world r))).
Qed.

Lemma classic_send (e : Event) :
  (∃ ru tu rb tb, e = EvSend ru tu rb tb) ∨ (∀ ru tu rb tb, e ≠ EvSend ru tu rb tb).
Proof. destruct e; try (by right); left; eauto. Qed.

Lemma rstep_not_send (e : Event) (r : Rendered) :
  (∀ ru tu rb tb, e ≠ EvSend ru tu rb tb) →
  world (rstep (Dispatch e) r) = step e (world r).
Proof.
  intros He. destruct e as [| | | | | | | |ru tu rb tb| | |]; try done.
  by destruct (He ru tu rb tb).
Qed.

Lemma rrun_sendsRendered (es : list REvent) (r : Rendered) :
  sendsRendered es r → world (rrun es r) = run (dispatched es) (world r).
Proof.
  revert r. induction es as [|e es IH]; intros r; [done|].
  intros [He Hes]. change (rrun (e :: es) r) with (rrun es (rstep e r)).
  rewrite IH by done. destruct e as [|e]; [done|].
  change (dispatched (Dispatch e :: es)) with (e :: dispatched es).
  change (run (e :: dispatched es) (world r))
    with (run (dispatched es) (step e (world r))).
  f_equal. destruct e; try done. by apply rstep_rendered.
Qed.

Lemma rstep_drawn (e : REvent) (r : Rendered) :
  ∃ l, drawn (world (rstep e r)) = drawn (world r) ++ l.
Proof.
  destruct e as [|e]; [exists []; by rewrite app_nil_r|].
  destruct e; try apply step_drawn. simpl.
  destruct (guard (closure r)); simpl; [exists []; by rewrite app_nil_r | eauto].
Qed.

Lemma tracked_sendFrom (c : State) (ru : string) (tu : Date) (rb : string)
    (tb : Date) (w : World) :
  guard c = false →
  NoDup (drawn w ++ [generateId ru; generateId rb]) →
  tracked w →
  tracked {| ui := sendPrologueFrom c ru tu rb tb (ui w);
             inflight := inflight w ++ [generateId rb];
             drawn := drawn w ++ [generateId ru; generateId rb] |}.
Proof.
  intros Hg (_ & Hfresh & Hub)%NoDup_app [Hi Hf Hu Ho].
  apply NoDup_cons in Hub as [Hub _].
  rewrite list_elem_of_singleton in Hub.
  split; cbn [ui inflight drawn]; rewrite ?sendPrologueFrom_messages.
  - unfold ids. rewrite fmap_app. by apply sublist_app.
  - intros b [Hb | ->%list_elem_of_singleton]%elem_of_app;
      rewrite elem_of_app; [by left; apply Hf|].
    right. rewrite !elem_of_cons. tauto.
  - intros m [Hm | Hm]%elem_of_app Hr
      [Hin | Heq%list_elem_of_singleton]%elem_of_app.
    + by apply (Hu m).
    + apply (Hfresh (id m)); [|rewrite Heq, !elem_of_cons; tauto].
      eapply elem_of_sublist; [|exact Hi]. by apply list_elem_of_fmap_2.
    + apply elem_of_cons in Hm as [-> | ->%list_elem_of_singleton]; [|done].
      apply (Hfresh (generateId ru)); [by apply Hf|].
      rewrite !elem_of_cons. tauto.
    + apply elem_of_cons in Hm as [-> | ->%list_elem_of_singleton]; done.
  - apply Forall_app. split; [done|].
    apply Forall_cons. split; [by apply userMsg_ok|].
    apply Forall_cons. split; [done | constructor].
Qed.

Lemma tracked_rstep (e : REvent) (r : Rendered) :
  NoDup (drawn (world (rstep e r))) → tracked (world r) →
  tracked (world (rstep e r)).
Proof.
  destruct e as [|e]; [done|].
  destruct (classic_send e) as [(ru & tu & rb & tb & ->) | He].
  - simpl. destruct (guard (closure r)) eqn:Hg; [done|]. simpl.
    intros Hnd Hw. by apply tracked_sendFrom.
  - rewrite rstep_not_send by done. apply tracked_step.
Qed.

End rendered_system.

Section user_messages.

Lemma rrun_tracked (es : list REvent) :
  NoDup (drawn (world (rrun es initialRendered))) →
  tracked (world (rrun es initialRendered)).
Proof.
  induction es as [|e es IH] using rev_ind; [intros _; apply tracked_init|].
  rewrite rrun_snoc. intros Hnd. apply tracked_rstep; [done|]. apply IH.
  destruct (rstep_drawn e (rrun es initialRendered)) as [l Hl].
  rewrite Hl in Hnd. by apply NoDup_app in Hnd as [? _].
Qed.

Lemma deltasSafe_snoc (es : list REvent) (e : REvent) (r : Rendered) :
  deltasSafe (es ++ [e]) r ↔ deltasSafe es r ∧ deltaSafe e (rrun es r).
Proof.
  revert r. induction es as [|e' es IH]; intros r; simpl; [tauto|].
  change (rrun (e' :: es) r) with (rrun es (rstep e' r)).
  rewrite IH. tauto.
Qed.

(** Pairwise distinct ids keep every delta away from the user messages. *)
Lemma NoDup_deltasSafe (es : list REvent) :
  NoDup (drawn (world (rrun es initialRendered))) →
  deltasSafe es initialRendered.
Proof.
  induction es as [|e es IH] using rev_ind; [done|].
  rewrite rrun_snoc, deltasSafe_snoc. intros Hnd.
  assert (NoDup (drawn (world (rrun es initialRendered)))) as Hnd'.
  { destruct (rstep_drawn e (rrun es initialRendered)) as [l Hl].
    rewrite Hl in Hnd. by apply NoDup_app in Hnd as [? _]. }
  split; [by apply IH|].
  destruct e as [|e]; [done|]. destruct e; try done. simpl.
  intros b m Hk Hm Hr Heq.
  apply (tracked_user _ (rrun_tracked es Hnd') m Hm Hr).
  rewrite Heq. by eapply list_elem_of_lookup_2.
Qed.

(** Where a user message of the conversation comes from, one event back:
    it was there already, or the event is an accepted send that built it
    from the cells its handler read. *)
Lemma user_message_origin (e : REvent) (r : Rendered) (m : Message) :
  deltaSafe e r →
  m ∈ messages (ui (world (rstep e r))) → role m = user →
  m ∈ messages (ui (world r)) ∨
  ∃ ru tu rb tb, e = Dispatch (EvSend ru tu rb tb) ∧
                 guard (closure r) = false ∧ m = userMsg ru tu (closure r).
Proof.
  intros Hsafe. destruct e as [|e]; [by left|].
  destruct e; simpl; try (by left).
  - by intros ?%elem_of_nil.
  - destruct (guard (closure r)) eqn:Hg; [by left|].
    cbn [world ui]. rewrite sendPrologueFrom_messages.
    intros [Hm | Hm]%elem_of_app Hr; [by left|].
    apply elem_of_cons in Hm as [-> | ->%list_elem_of_singleton]; [|done].
    right. by repeat eexists.
  - destruct (inflight (world r) !! k) as [b|] eqn:Hk; [|by left]. simpl.
    rewrite onChunk_messages. intros (m0 & -> & Hm0)%list_elem_of_fmap.
    rewrite appendChunk_role. intros Hr. left.
    rewrite appendChunk_other; [done|]. by apply (Hsafe b).
  - destruct (inflight (world r) !! k); by left.
  - destruct (inflight (world r) !! k) as [b|]; [|by left]. simpl.
    intros [Hm | ->%list_elem_of_singleton]%elem_of_app Hr; [by left | done].
Qed.

Lemma rrun_sentDuring (es : list REvent) (m : Message) :
  deltasSafe es initialRendered →
  m ∈ messages (ui (world (rrun es initialRendered))) → role m = user →
  sentDuring es m.
Proof.
  induction es as [|e es IH] using rev_ind; [by intros _ ?%elem_of_nil|].
  rewrite rrun_snoc, deltasSafe_snoc. intros [Hes He] Hm Hr.
  destruct (user_message_origin e _ m He Hm Hr)
    as [Hold | (ru & tu & rb & tb & -> & Hg & ->)].
  - destruct (IH Hes Hold Hr) as (es1 & ru & tu & rb & tb & es2 & -> & Hg & ->).
    exists es1, ru, tu, rb, tb, (es2 ++ [e]).
    by rewrite <- (assoc_L (++)).
  - by exists es, ru, tu, rb, tb, [].
Qed.

(** Each step of the code on the well-formedness of user messages. *)
Lemma userMsgOk_send (c : State) (ru : string) (tu : Date) (rb : string)
    (tb : Date) (s : State) :
  guard c = false → Forall userMsgOk (messages s) →
  Forall userMsgOk (messages (sendPrologueFrom c ru tu rb tb s)).
Proof.
  intros Hg Ho. rewrite sendPrologueFrom_messages. apply Forall_app.
  split; [done|]. apply Forall_cons. split; [by apply userMsg_ok|].
  apply Forall_cons. split; [done | constructor].
Qed.

Lemma userMsgOk_failure (re : string) (te : Date) (s : State) :
  Forall userMsgOk (messages s) →
  Forall userMsgOk (messages (onFinally (onCatch re te s))).
Proof.
  intros Ho. simpl. apply Forall_app. split; [done|]. by apply Forall_singleton.
Qed.

Lemma userMsgOk_delta (b : string) (c : option string) (s : State) :
  (∀ m, m ∈ messages s → role m = user → id m ≠ b) →
  Forall userMsgOk (messages s) → Forall userMsgOk (messages (onChunk b c s)).
Proof.
  intros Hb Ho. rewrite onChunk_messages, Forall_fmap.
  rewrite Forall_forall in Ho |- *. intros m Hm. simpl.
  destruct (role m) eqn:Hr.
  - rewrite appendChunk_other; [by apply Ho | by apply Hb].
  - intros Hr'. by rewrite appendChunk_role, Hr in Hr'.
Qed.

(** C9 as the code has it. In every state reached by any sequence of
    events and renders in which no delta was applied while a user message
    carried the id of its placeholder (as is the case whenever the ids
    drawn so far are pairwise distinct), every user message is as a send
    built it: its text is the trimmed input that the handler of an
    accepted send read, its attachment the one pending then; so its text
    has no white space at either end and it has a non-empty text or an
    attachment.  This well-formedness of the user messages is preserved
    by the send, by the failure path, by the completion and by the clear
    in every state, and by a streamed delta whenever no user message
    carries the id of the placeholder. *)
Theorem user_messages_well_formed :
  (∀ es m,
     deltasSafe es initialRendered ∨
     NoDup (drawn (world (rrun es initialRendered))) →
     m ∈ messages (ui (world (rrun es initialRendered))) → role m = user →
     (∃ es1 ru tu rb tb es2,
        es = es1 ++ Dispatch (EvSend ru tu rb tb) :: es2 ∧
        guard (closure (rrun es1 initialRendered)) = false ∧
        id m = generateId ru ∧
        text m = trim (input (closure (rrun es1 initialRendered))) ∧
        types.attachment m = attachment (closure (rrun es1 initialRendered))) ∧
     trim (text m) = text m ∧
     ws_free_ends (text m) ∧
     (text m ≠ "" ∨ is_Some (types.attachment m))) ∧
  (∀ c ru tu rb tb s,
     guard c = false → Forall userMsgOk (messages s) →
     Forall userMsgOk (messages (sendPrologueFrom c ru tu rb tb s))) ∧
  (∀ re te s,
     Forall userMsgOk (messages s) →
     Forall userMsgOk (messages (onFinally (onCatch re te s)))) ∧
  (∀ s, Forall userMsgOk (messages s) → Forall userMsgOk (messages (onFinally s))) ∧
  (∀ s, Forall userMsgOk (messages (startNewChat s))) ∧
  (∀ b c s,
     (∀ m, m ∈ messages s → role m = user → id m ≠ b) →
     Forall userMsgOk (messages s) →
     Forall userMsgOk (messages (onChunk b c s))).
Proof.
  split; [|split; [|split; [|split; [|split]]]].
  - intros es m Hsafe Hm Hr.
    assert (deltasSafe es initialRendered) as Hes
      by (destruct Hsafe; [done | by apply NoDup_deltasSafe]).
    destruct (rrun_sentDuring es m Hes Hm Hr)
      as (es1 & ru & tu & rb & tb & es2 & Heq & Hg & Hmsg).
    split; [by exists es1, ru, tu, rb, tb, es2; rewrite Hmsg|].
    assert (userMsgOk m) as Hok by (rewrite Hmsg; by apply userMsg_ok).
    exact (Hok Hr).
  - apply userMsgOk_send.
  - apply userMsgOk_failure.
  - done.
  - intros s. constructor.
  - apply userMsgOk_delta.
Qed.

Lemma user_messages_well_formed_witness :
  Forall userMsgOk (messages (typed "Hi")) ∧
  Forall userMsgOk
    (messages (onChunk "8qkl3ta7x" (Some "Hel")
                 (sendPrologueFrom (typed "Hi")
                    "0.4fzyo82mvyr" 1762000000000%Z
                    "0.8qkl3ta7xwd" 1762000000004%Z (typed "Hi")))).
Proof.
  assert (Forall userMsgOk (messages (typed "Hi"))) as H0 by constructor.
  split; [exact H0|].
  destruct user_messages_well_formed as (_ & Hsend & _ & _ & _ & Hdelta).
  apply Hdelta; [|by apply Hsend].
  intros m Hm Hr Hid. revert Hm Hr Hid. vm_compute messages.
  rewrite !elem_of_cons. intros [-> | [-> | ?%elem_of_nil]]; done.
Defined.

(** A collision that does no harm: the notice of a failed send takes the
    id of the user message; no delta is involved, and the user messages
    stay well formed. *)
Example harmless_collision :
  ¬ NoDup (drawn (world (rrun noticeCollides initialRendered))) ∧
  deltasSafe noticeCollides initialRendered ∧
  (λ m, (id m, role m, text m)) <$>
    messages (ui (world (rrun noticeCollides initialRendered)))
  = [("4fzyo82mv", user, "Hi"); ("8qkl3ta7x", model, "Hel");
     ("4fzyo82mv", model, failureNotice)].
Proof.
  split; [|split; [|reflexivity]].
  - vm_compute. intros [Hn _]%NoDup_cons. apply Hn.
    rewrite !elem_of_cons. tauto.
  - simpl. repeat split; try done.
    intros b m [= <-]. vm_compute messages.
    rewrite !elem_of_cons. intros [-> | [-> | ?%elem_of_nil]]; done.
Qed.

End user_messages.

(** * Further properties of the code *)

Import FileSelect View Facts.

(** ** The whole effect of an accepted send *)

Section send_effect.

Lemma frame_appendChunk (b t : string) (m : Message) :
  frame (appendChunk b t m) = frame m.
Proof. unfold frame, appendChunk. by case_decide. Qed.

Lemma frame_fmap_appendChunk (b t : string) (ms : list Message) :
  frame <$> (appendChunk b t <$> ms) = frame <$> ms.
Proof.
  rewrite <- list_fmap_compose. apply list_fmap_ext.
  intros i m _. apply frame_appendChunk.
Qed.

Lemma atStreamStop_messages (env : SendEnv) (s : State) :
  messages (atStreamStop env s) =
    appendChunk (botMsgId env) (receivedText (stream env))
      <$> messages (prologue env s).
Proof.
  unfold atStreamStop. destruct (stream env) as [|cs e].
  - simpl receivedText. rewrite <- (list_fmap_id (messages _)) at 1.
    apply list_fmap_ext. intros. by rewrite appendChunk_empty.
  - apply onChunks_messages.
Qed.

Lemma atStreamStop_cells (env : SendEnv) (s : State) :
  input (atStreamStop env s) = "" ∧ attachment (atStreamStop env s) = None.
Proof.
  unfold atStreamStop. destruct (stream env) as [|cs e]; [done|].
  rewrite onChunks_as_one.
  destruct (onChunk_cells (botMsgId env) (Some (chunksText cs)) (prologue env s))
    as (-> & _ & _ & _ & _ & ->).
  done.
Qed.

Lemma handleSend_messages (env : SendEnv) (s : State) :
  guard s = false →
  messages (handleSend env s) =
    messages (atStreamStop env s) ++
    (if streamFails (stream env)
     then [errorMsg (rnd_err env) (now_err env)] else []).
Proof.
  intros Hg. rewrite handleSend_accepted by done.
  destruct (streamFails (stream env)); simpl; by rewrite ?app_nil_r.
Qed.

Lemma fmap_appendChunk_absent (b t : string) (ms : list Message) :
  b ∉ ids ms → appendChunk b t <$> ms = ms.
Proof.
  intros Hb. rewrite <- (list_fmap_id ms) at 2. apply list_fmap_ext.
  intros i m Hm. apply appendChunk_other. intros Heq. apply Hb.
  rewrite <- Heq. apply list_elem_of_fmap_2. by eapply list_elem_of_lookup_2.
Qed.

(** X1. Whatever the stream does and whatever ids are drawn, an accepted
    send clears the input buffer and the pending attachment, and leaves a
    conversation whose ids, roles, timestamps and attachments are those of
    the earlier messages, in their order, followed by the user message,
    the placeholder and, after a failure only, the notice: two more
    messages on success and three on failure. *)
Theorem handleSend_appends_in_order (env : SendEnv) (s : State) :
  guard s = false →
  input (handleSend env s) = "" ∧
  attachment (handleSend env s) = None ∧
  frame <$> messages (handleSend env s) = frame <$> expectedConversation env s ∧
  length (messages (handleSend env s)) =
    (length (messages s) + if streamFails (stream env) then 3 else 2)%nat.
Proof.
  intros Hg.
  assert (frame <$> messages (handleSend env s)
          = frame <$> expectedConversation env s) as Hfr.
  { rewrite handleSend_messages, atStreamStop_messages by done.
    rewrite fmap_app, frame_fmap_appendChunk.
    unfold prologue. rewrite sendPrologue_messages.
    unfold expectedConversation. rewrite !fmap_app.
    by rewrite <- (assoc_L (++)). }
  split; [|split; [|split; [done|]]].
  - rewrite handleSend_accepted by done.
    destruct (streamFails (stream env)); apply atStreamStop_cells.
  - rewrite handleSend_accepted by done.
    destruct (streamFails (stream env)); apply atStreamStop_cells.
  - apply (f_equal length) in Hfr. rewrite !length_fmap in Hfr. rewrite Hfr.
    unfold expectedConversation. rewrite !length_app.
    destruct (streamFails (stream env)); simpl; lia.
Qed.

Lemma handleSend_appends_in_order_witness :
  guard (typed "Hi") = false ∧
  length (messages (handleSend (sampleEnv (Opens [Some "Hel"] Throws)) (typed "Hi")))
  = 3%nat.
Proof.
  split; [reflexivity|].
  by destruct (handleSend_appends_in_order
                 (sampleEnv (Opens [Some "Hel"] Throws)) (typed "Hi") eq_refl)
    as (_ & _ & _ & ->).
Defined.

(** X2. When no earlier message and not the new user message carries the
    id drawn for the placeholder, an accepted send leaves exactly the
    earlier messages untouched, then the user message with the trimmed
    input and the attachment that was pending, then the placeholder whose
    text is the concatenation of the chunks received, then the notice if
    the stream failed. *)
Theorem handleSend_result (env : SendEnv) (s : State) :
  guard s = false →
  botMsgId env ∉ ids (messages s) →
  botMsgId env ≠ generateId (rnd_user env) →
  messages (handleSend env s) = expectedConversation env s.
Proof.
  intros Hg Hold Hnew.
  rewrite handleSend_messages, atStreamStop_messages by done.
  unfold prologue. rewrite sendPrologue_messages.
  unfold expectedConversation. rewrite fmap_app, <- (assoc_L (++)).
  rewrite fmap_appendChunk_absent by done. do 2 f_equal. simpl.
  rewrite appendChunk_other by (simpl; congruence).
  do 2 f_equal. unfold appendChunk, filledPlaceholder, botMsgId.
  simpl. by rewrite decide_True.
Qed.

Lemma handleSend_result_witness :
  guard (typed "Hi") = false ∧
  (λ m, (role m, text m)) <$>
    messages (handleSend (sampleEnv (Opens [Some "He"; None; Some "llo!"] Completes))
                (typed "Hi"))
  = [(user, "Hi"); (model, "Hello!")].
Proof.
  split; [reflexivity|].
  rewrite (handleSend_result
             (sampleEnv (Opens [Some "He"; None; Some "llo!"] Completes))
             (typed "Hi") eq_refl);
    [reflexivity | by intros ?%elem_of_nil | done].
Defined.

(** X3. A delta for an id that no message of the conversation carries
    changes nothing at all; in particular every delta that arrives after
    [startNewChat] is lost, and the state stays the cleared one. *)
Theorem onChunk_absent_id (b : string) (c : option string) (s : State) :
  b ∉ ids (messages s) →
  onChunk b c s = s ∧ onChunk b c (startNewChat s) = startNewChat s.
Proof.
  intros Hb. split; [|by destruct c as [[|x t]|]].
  destruct c as [[|x t]|]; [done| |done]. simpl.
  unfold setMessages. rewrite fmap_appendChunk_absent by done. by destruct s.
Qed.

Lemma onChunk_absent_id_witness :
  ("8qkl3ta7x" ∉ ids (messages (typed "Hi"))) ∧
  onChunk "8qkl3ta7x" (Some "late") (typed "Hi") = typed "Hi".
Proof.
  assert ("8qkl3ta7x" ∉ ids (messages (typed "Hi"))) as Hb
    by (by intros ?%elem_of_nil).
  split; [exact Hb|]. exact (proj1 (onChunk_absent_id _ (Some "late") _ Hb)).
Defined.

End send_effect.

(** ** Invariants of the event system *)

Section event_invariants.

Lemma reachable_busy (w : World) :
  reachable w →
  (inflight w = [] ∧ isLoading (ui w) = false) ∨
  (∃ b, inflight w = [b] ∧ isLoading (ui w) = true).
Proof.
  induction 1 as [|e w Hw IH]; [by left|].
  destruct e; simpl; try done.
  - destruct (guard (ui w)) eqn:Hg; [done|].
    apply guard_false in Hg as [Hl _].
    destruct IH as [[-> _] | (b & _ & Hb)]; [|congruence].
    right. by eexists.
  - destruct (inflight w !! k) as [b|] eqn:Hk; [|done]. simpl.
    by rewrite (proj1 (proj2 (onChunk_cells b chunkText (ui w)))).
  - destruct (inflight w !! k) as [b|] eqn:Hk; [|done]. simpl.
    destruct IH as [[Hi _] | (b' & Hi & Hl)]; rewrite Hi in Hk |- *; [done|].
    destruct k; [by left | done].
  - destruct (inflight w !! k) as [b|] eqn:Hk; [|done]. simpl.
    destruct IH as [[Hi _] | (b' & Hi & Hl)]; rewrite Hi in Hk |- *; [done|].
    destruct k; [by left | done].
Qed.

(** X4. When every send is dispatched on a render of the current state,
    as when the component re-renders between two user events, at most one
    invocation of [handleSend] is suspended at any time, the busy flag is
    set exactly while one is, and until it ends a further send is
    rejected without any effect. *)
Theorem one_send_at_a_time (es : list REvent) :
  sendsRendered es initialRendered →
  (length (inflight (world (rrun es initialRendered))) ≤ 1)%nat ∧
  (isLoading (ui (world (rrun es initialRendered))) = true ↔
   inflight (world (rrun es initialRendered)) ≠ []) ∧
  (inflight (world (rrun es initialRendered)) ≠ [] →
   closure (rrun es initialRendered) = ui (world (rrun es initialRendered)) →
   ∀ ru tu rb tb,
     rstep (Dispatch (EvSend ru tu rb tb)) (rrun es initialRendered)
     = rrun es initialRendered).
Proof.
  intros Hes.
  assert (reachable (world (rrun es initialRendered))) as Hr.
  { rewrite rrun_sendsRendered by done. apply reachable_run, reachable_init. }
  destruct (reachable_busy _ Hr) as [[Hi Hl] | (b & Hi & Hl)]; rewrite Hi, ?Hl.
  - split; [simpl; lia|]. by split.
  - split; [simpl; lia|]. split; [done|].
    intros _ Hc ru tu rb tb. simpl. unfold guard. by rewrite Hc, Hl, orb_true_r.
Qed.

Lemma one_send_at_a_time_witness :
  sendsRendered sendThenType initialRendered ∧
  rstep (Dispatch (EvSend "0.c2rmh51jd9e" 1762000000900%Z
                     "0.1x7pzkq03ab" 1762000000901%Z))
    (rrun sendThenType initialRendered)
  = rrun sendThenType initialRendered.
Proof.
  assert (sendsRendered sendThenType initialRendered) as Hes
    by (simpl; repeat split).
  split; [exact Hes|].
  by apply (one_send_at_a_time sendThenType Hes).
Defined.

(** Without a render in between the guard reads old cells: two sends
    dispatched on the same render are both accepted, and a send
    dispatched after the end of a stream but before the next render is
    dropped although the component is idle. *)
Example sends_on_a_stale_render :
  length (inflight (world (rrun twoSendsOneRender initialRendered))) = 2%nat ∧
  text <$> messages (ui (world (rrun twoSendsOneRender initialRendered)))
  = ["Hi"; ""; "Hi"; ""] ∧
  isLoading (ui (world (rrun sendBeforeRerender initialRendered))) = false ∧
  input (ui (world (rrun sendBeforeRerender initialRendered))) = "more" ∧
  length (messages (ui (world (rrun sendBeforeRerender initialRendered)))) = 2%nat.
Proof. repeat split. Qed.

(** X5. The conversation only grows: an event other than [startNewChat]
    keeps every message in place with its id, role, timestamp and
    attachment and may only append after them, so the welcome screen, once
    replaced by the message list, comes back by [startNewChat] only. *)
Theorem step_conversation_grows (e : Event) (w : World) :
  e ≠ EvNewChat →
  (frame <$> messages (ui w)) `prefix_of` (frame <$> messages (ui (step e w))) ∧
  (length (messages (ui w)) ≤ length (messages (ui (step e w))))%nat ∧
  (showsWelcome (ui w) = false → showsWelcome (ui (step e w)) = false).
Proof.
  intros He.
  assert ((frame <$> messages (ui w))
            `prefix_of` (frame <$> messages (ui (step e w)))) as Hp.
  { destruct e; simpl; try done.
    - destruct (guard (ui w)); simpl; [done|].
      rewrite <- (assoc_L (++)), fmap_app. by apply prefix_app_r.
    - destruct (inflight w !! k) as [b|]; simpl; [|done].
      rewrite onChunk_messages. by rewrite frame_fmap_appendChunk.
    - by destruct (inflight w !! k).
    - destruct (inflight w !! k) as [b|]; simpl; [|done].
      rewrite fmap_app. by apply prefix_app_r. }
  split; [done|].
  apply prefix_length in Hp. rewrite !length_fmap in Hp. split; [done|].
  unfold showsWelcome. rewrite !bool_decide_eq_false. lia.
Qed.

Lemma step_conversation_grows_witness :
  EvChunk 0 (Some "Hello") ≠ EvNewChat ∧
  showsWelcome (ui (step (EvChunk 0 (Some "Hello")) (run collidingSend initialWorld)))
  = false.
Proof.
  split; [done|].
  by apply (step_conversation_grows (EvChunk 0 (Some "Hello"))
              (run collidingSend initialWorld)).
Defined.

Lemma reachable_last_model (w : World) :
  reachable w → ∀ m, list.last (messages (ui w)) = Some m → role m = model.
Proof.
  induction 1 as [|e w Hw IH]; [done|].
  destruct e; simpl; try done.
  - destruct (guard (ui w)); simpl; [done|].
    rewrite last_snoc. by intros m [= <-].
  - destruct (inflight w !! k) as [b|]; simpl; [|done].
    rewrite onChunk_messages, fmap_last. intros m' Hm'.
    apply fmap_Some in Hm' as (m & Hm & ->).
    rewrite appendChunk_role. by apply IH.
  - by destruct (inflight w !! k).
  - destruct (inflight w !! k) as [b|]; simpl; [|done].
    rewrite last_snoc. by intros m [= <-].
Qed.

(** X6. In every reachable state the last message of a non-empty
    conversation is a model message, because a send appends the user
    message and the placeholder in one step; so the fallback indicator
    below the list, shown while busy when the last message is the
    user's, is never displayed. *)
Theorem fallback_indicator_never_shown (w : World) :
  reachable w →
  showsFallbackThinking (messages (ui w)) (isLoading (ui w)) = false ∧
  ∀ m, list.last (messages (ui w)) = Some m → role m = model.
Proof.
  intros Hw. split; [|by apply reachable_last_model].
  unfold showsFallbackThinking.
  destruct (messages (ui w) !! (length (messages (ui w)) - 1)%nat) as [m|] eqn:Hm;
    [|by rewrite andb_false_r].
  replace (length (messages (ui w)) - 1)%nat
    with (pred (length (messages (ui w)))) in Hm by lia.
  rewrite <- last_lookup in Hm.
  rewrite (reachable_last_model w Hw m Hm). by rewrite andb_false_r.
Qed.

Lemma fallback_indicator_never_shown_witness :
  reachable (run collidingSend initialWorld) ∧
  showsFallbackThinking (messages (ui (run collidingSend initialWorld)))
    (isLoading (ui (run collidingSend initialWorld))) = false.
Proof.
  assert (reachable (run collidingSend initialWorld)) as Hr
    by apply reachable_run, reachable_init.
  split; [exact Hr|]. exact (proj1 (fallback_indicator_never_shown _ Hr)).
Defined.

(** X7. While the ids drawn so far are pairwise distinct, every user
    message of a reachable conversation renders something: its image, its
    text, or both. *)
Theorem user_message_renders (w : World) (m : Message) :
  reachable w → NoDup (drawn w) → m ∈ messages (ui w) → role m = user →
  showsImage m || showsUserText m = true.
Proof.
  intros Hw Hnd Hm Hr.
  destruct (reachable_tracked w Hw Hnd) as [_ _ _ Hok].
  rewrite Forall_forall in Hok.
  destruct (Hok m Hm Hr) as (_ & _ & [Ht | Ha]).
  - unfold showsImage, showsUserText. rewrite Hr.
    apply truthy_true in Ht. rewrite Ht. apply orb_true_r.
  - unfold showsImage. rewrite Hr. by rewrite bool_decide_eq_true_2.
Qed.

End event_invariants.

Section event_invariants_examples.

Lemma user_message_renders_witness :
  reachable (run sampleFailedSend initialWorld) ∧
  NoDup (drawn (run sampleFailedSend initialWorld)) ∧
  userMsg "0.4fzyo82mvyr" 1762000000000%Z (typed "Hi")
    ∈ messages (ui (run sampleFailedSend initialWorld)) ∧
  showsImage (userMsg "0.4fzyo82mvyr" 1762000000000%Z (typed "Hi"))
  || showsUserText (userMsg "0.4fzyo82mvyr" 1762000000000%Z (typed "Hi")) = true.
Proof.
  assert (reachable (run sampleFailedSend initialWorld)) as Hr
    by apply reachable_run, reachable_init.
  assert (NoDup (drawn (run sampleFailedSend initialWorld))) as Hd
    by (vm_compute; compute_done).
  assert (userMsg "0.4fzyo82mvyr" 1762000000000%Z (typed "Hi")
            ∈ messages (ui (run sampleFailedSend initialWorld))) as Hm
    by (vm_compute; left).
  split; [exact Hr|]. split; [exact Hd|]. split; [exact Hm|].
  exact (user_message_renders _ _ Hr Hd Hm eq_refl).
Defined.

End event_invariants_examples.

(** ** What the message list shows during and after a send *)

Section rendering.

(** X8. A model message shows the avatar exactly when it shows its
    Markdown, and the thinking indicator exactly when it does not; a delta
    can take a message from the indicator to its text but never back, and
    never changes what a user message shows of its image. *)
Theorem delta_never_hides_text (b t : string) (m : Message) :
  showsBotAvatar m = showsMarkdown m ∧
  (role m = model → showsThinking m = negb (showsMarkdown m)) ∧
  (showsMarkdown m = true → showsMarkdown (appendChunk b t m) = true) ∧
  (showsThinking m = false → showsThinking (appendChunk b t m) = false) ∧
  showsImage (appendChunk b t m) = showsImage m.
Proof.
  unfold showsBotAvatar, showsMarkdown, showsThinking, showsImage.
  rewrite appendChunk_role, appendChunk_attachment.
  assert (truthy (text m) = true → truthy (text (appendChunk b t m)) = true) as Hg.
  { unfold appendChunk. case_decide; [|done]. simpl.
    rewrite truthy_append. by intros ->. }
  destruct (role m), (truthy (text m)) eqn:Ht; simpl;
    repeat split; try done; intros _; by rewrite Hg.
Qed.

(** X9. After a send whose stream could not be opened, the placeholder
    stays in the conversation with an empty text: the list keeps showing
    the thinking indicator for it although the busy flag is cleared, and
    the next request carries it in its history as a model turn without
    parts. *)
Theorem open_failure_leaves_empty_placeholder (env : SendEnv) (s : State) :
  guard s = false → stream env = OpenFails →
  isLoading (handleSend env s) = false ∧
  ∃ p, messages (handleSend env s) !! S (length (messages s)) = Some p ∧
       id p = botMsgId env ∧ text p = "" ∧
       showsThinking p = true ∧
       rq_history (request (handleSend env s)) !! S (length (messages s))
       = Some {| c_role := model; parts := [] |}.
Proof.
  intros Hg Hs. split; [by rewrite handleSend_accepted|].
  exists (botMsg (botMsgId env) (now_bot env)).
  assert (messages (handleSend env s) !! S (length (messages s))
          = Some (botMsg (botMsgId env) (now_bot env))) as Hp.
  { rewrite handleSend_messages by done. unfold atStreamStop. rewrite Hs.
    unfold prologue. rewrite sendPrologue_messages, <- (assoc_L (++)).
    rewrite lookup_app_r by lia.
    by replace (S (length (messages s)) - length (messages s))%nat
      with 1%nat by lia. }
  repeat split; try done.
  unfold request, sendMessageToGeminiStream, history. simpl rq_history.
  by rewrite !list_lookup_fmap, Hp.
Qed.

Lemma open_failure_leaves_empty_placeholder_witness :
  guard (typed "Hi") = false ∧
  stream (sampleEnv OpenFails) = OpenFails ∧
  isLoading (handleSend (sampleEnv OpenFails) (typed "Hi")) = false.
Proof.
  split; [reflexivity|]. split; [reflexivity|].
  exact (proj1 (open_failure_leaves_empty_placeholder
                  (sampleEnv OpenFails) (typed "Hi") eq_refl eq_refl)).
Defined.

End rendering.

(** ** Attachments as data URLs *)

Section data_url.

Lemma includes_append (c : ascii) (a b : string) :
  includes c (a +:+ b) = includes c a || includes c b.
Proof.
  induction a as [|x a IH]; [done|].
  rewrite append_cons. simpl. by rewrite IH, orb_assoc.
Qed.

Lemma split_without_separator (sep : ascii) (s : string) :
  includes sep s = false → split sep s = [s].
Proof.
  induction s as [|c r IH]; [done|]. simpl.
  intros [-> Hr]%orb_false_iff. by rewrite IH.
Qed.

Lemma split_at_first_separator (sep : ascii) (a b : string) :
  includes sep a = false →
  split sep (a +:+ String sep b) = a :: split sep b.
Proof.
  induction a as [|c a IH].
  - intros _. rewrite append_empty_l. simpl. by rewrite Ascii.eqb_refl.
  - rewrite append_cons. simpl. intros [Hc Ha]%orb_false_iff.
    by rewrite Hc, IH.
Qed.

Lemma split_head_without_separator (sep : ascii) (s : string) :
  ∃ h t, split sep s = h :: t ∧ includes sep h = false.
Proof.
  induction s as [|c r (h & t & Hs & Hh)]; simpl.
  - by exists "", [].
  - destruct (Ascii.eqb c sep) eqn:Hc.
    + by exists "", (split sep r).
    + rewrite Hs. exists (String c h), t. simpl. by rewrite Hc, Hh.
Qed.

Lemma previewSrc_shape (a : Attachment) :
  previewSrc a = ("data:" +:+ mimeType a +:+ ";base64") +:+ String "," (data a).
Proof.
  unfold previewSrc.
  change (";base64," +:+ data a) with (";base64" +:+ String "," (data a)).
  by rewrite <- !append_associative.
Qed.

(** X10. Reading back the preview URL built from an attachment gives the
    attachment again: when neither its type nor its payload contains a
    comma, [split(',')[1]] of [`data:${mimeType};base64,${data}`] is the
    payload, and [reader.onload] on that URL stages the same attachment. *)
Theorem previewSrc_round_trip (a : Attachment) (s : State) :
  includes "," (mimeType a) = false →
  includes "," (data a) = false →
  base64Data (previewSrc a) = Some (data a) ∧
  onReaderLoad (previewSrc a) (mimeType a) s = Some (onFileLoaded a s).
Proof.
  intros Hm Hd.
  assert (base64Data (previewSrc a) = Some (data a)) as Hb.
  { unfold base64Data. rewrite previewSrc_shape, split_at_first_separator.
    - by rewrite split_without_separator.
    - by rewrite !includes_append, Hm. }
  split; [done|]. unfold onReaderLoad. rewrite Hb. simpl. by destruct a.
Qed.

Lemma previewSrc_round_trip_witness :
  includes "," (mimeType sampleImage) = false ∧
  includes "," (data sampleImage) = false ∧
  base64Data (previewSrc sampleImage) = Some (data sampleImage).
Proof.
  split; [reflexivity|]. split; [reflexivity|].
  exact (proj1 (previewSrc_round_trip sampleImage initialState eq_refl eq_refl)).
Defined.

(** X11. The payload taken from a reader result is the text between its
    first and its second comma: a result without a comma has no payload
    (it is undefined), and for a result with one the payload never
    contains a comma, whatever follows the first one. *)
Theorem base64Data_between_commas (header rest : string) :
  includes "," header = false →
  base64Data header = None ∧
  ∃ payload, base64Data (header +:+ String "," rest) = Some payload ∧
             includes "," payload = false ∧
             (includes "," rest = false → payload = rest) ∧
             ∀ tail, base64Data (header +:+ String "," (payload +:+ String "," tail))
                     = Some payload.
Proof.
  intros Hh. unfold base64Data. split; [by rewrite split_without_separator|].
  destruct (split_head_without_separator "," rest) as (h & t & Hs & Hp).
  exists h. rewrite split_at_first_separator, Hs by done.
  repeat split; try done.
  - intros Hr. rewrite split_without_separator in Hs by done. by injection Hs.
  - intros tl. by rewrite !split_at_first_separator.
Qed.

Lemma base64Data_between_commas_witness :
  includes "," "data:image/png;base64" = false ∧
  base64Data "data:image/png;base64" = None.
Proof.
  split; [reflexivity|].
  exact (proj1 (base64Data_between_commas "data:image/png;base64" "" eq_refl)).
Defined.

End data_url.

(** ** Identifiers *)

Section identifiers.

Lemma substring_length (n m : nat) (s : string) :
  String.length (substring n m s) = Nat.min m (String.length s - n).
Proof.
  revert n m. induction s as [|c r IH]; intros [|n] [|m]; simpl; try done.
  all: by rewrite IH, ?Nat.sub_0_r.
Qed.

Lemma substring_append_long (n m : nat) (a x : string) :
  (n + m ≤ String.length a)%nat →
  substring n m (a +:+ x) = substring n m a.
Proof.
  revert n m. induction a as [|c a IH]; intros n m.
  - simpl String.length. intros Hl.
    assert (n = 0 ∧ m = 0)%nat as [-> ->] by lia.
    rewrite append_empty_l. by destruct x.
  - rewrite append_cons. destruct n as [|n], m as [|m]; simpl; try done.
    + intros Hl. f_equal. apply (IH 0%nat). simpl. lia.
    + intros Hl. apply IH. lia.
    + intros Hl. apply IH. lia.
Qed.

(** X12. An id has at most nine characters: it is the rendering of the
    random number without its first two characters and cut after nine, so
    it is shorter (even empty) for a short rendering, and everything after
    the eleventh character of the rendering is ignored. *)
Theorem generateId_length (rnd36 : string) :
  String.length (generateId rnd36) = Nat.min 9 (String.length rnd36 - 2) ∧
  (String.length (generateId rnd36) ≤ 9)%nat ∧
  ∀ more, (11 ≤ String.length rnd36)%nat →
          generateId (rnd36 +:+ more) = generateId rnd36.
Proof.
  unfold generateId, substr. rewrite substring_length.
  split; [done|]. split; [lia|].
  intros more Hl. apply substring_append_long. simpl. lia.
Qed.

End identifiers.

(** ** The request and the model selection *)

Section request_more.

(** X13. The service forwards the history it is given unchanged and in
    order, and falls back to [gemini-3-pro-preview] only when no model
    name is passed; [handleSend] always passes the name of the selected
    model, also when an attachment is pending, and selecting a model
    closes the selector and changes the next request only, not the
    conversation. *)
Theorem request_uses_selected_model (s : State) :
  (∀ prompt h mn a,
     rq_history (sendMessageToGeminiStream prompt h mn a) = default [] h ∧
     rq_model (sendMessageToGeminiStream prompt h mn a)
     = default "gemini-3-pro-preview" mn) ∧
  rq_model (request s) = name (selectedModel s) ∧
  (∀ a, rq_model (request (onFileLoaded a s)) = name (selectedModel s)) ∧
  ∀ w m,
    rq_model (request (ui (step (EvSelectModel m) w))) = name m ∧
    messages (ui (step (EvSelectModel m) w)) = messages (ui w) ∧
    isLoading (ui (step (EvSelectModel m) w)) = isLoading (ui w) ∧
    isModelSelectorOpen (ui (step (EvSelectModel m) w)) = false.
Proof.
  split; [|done].
  intros prompt h mn a. split; [|done].
  unfold sendMessageToGeminiStream. simpl.
  rewrite <- (list_fmap_id (default [] h)) at 2.
  apply list_fmap_ext. intros i [r ps] _. done.
Qed.

(** X14. What is sent as the new turn and what the same user message
    contributes to the history of later requests differ in one case only:
    with an attachment the turn is the image part followed by a text part
    even if the text is empty, while the history entry drops an empty
    text; without an attachment the prompt sent is never empty and the
    history entry is that one text part. *)
Theorem new_turn_and_its_history (ru : string) (tu : Date) (s : State) :
  guard s = false →
  match attachment s with
  | Some a =>
      rq_message (request s) = PartArray [inlinePart a; textPart (trim (input s))] ∧
      historyParts (userMsg ru tu s) =
        inlinePart a ::
        (if decide (trim (input s) = "") then [] else [textPart (trim (input s))])
  | None =>
      trim (input s) ≠ "" ∧
      rq_message (request s) = PromptOnly (trim (input s)) ∧
      historyParts (userMsg ru tu s) = [textPart (trim (input s))]
  end.
Proof.
  intros [_ Hg]%guard_false.
  unfold request, sendMessageToGeminiStream, historyParts. simpl.
  destruct (attachment s) as [a|].
  - split; [done|]. by destruct (trim (input s)).
  - destruct Hg as [Hg | [a Ha]]; [|done].
    split; [done|]. split; [done|]. by destruct (trim (input s)).
Qed.

Lemma new_turn_and_its_history_witness :
  guard (onFileLoaded sampleImage (typed "  ")) = false ∧
  historyParts (userMsg "0.4fzyo82mvyr" 1762000000000%Z
                  (onFileLoaded sampleImage (typed "  ")))
  = [inlinePart sampleImage].
Proof.
  split; [reflexivity|].
  exact (proj2 (new_turn_and_its_history "0.4fzyo82mvyr" 1762000000000%Z
                  (onFileLoaded sampleImage (typed "  ")) eq_refl)).
Defined.

End request_more.

(** ** When a send is possible *)

Section sendable.

Lemma blank_append (a b : string) : blank (a +:+ b) = blank a && blank b.
Proof.
  induction a as [|c a IH]; [done|].
  rewrite append_cons. simpl. by rewrite IH, andb_assoc.
Qed.

Lemma trimStart_blank (s : string) : blank (trimStart s) = blank s.
Proof.
  induction s as [|c r IH]; [done|]. simpl.
  destruct (is_white_space c) eqn:Hc; [done|]. simpl. by rewrite Hc.
Qed.

Lemma trimEnd_empty (s : string) : trimEnd s = "" ↔ blank s = true.
Proof.
  induction s as [|c r IH]; [done|]. simpl.
  destruct (is_white_space c); simpl; [|done].
  destruct (trimEnd r) eqn:Hr; simpl.
  - split; [intros _; by apply IH | done].
  - split; [done|]. intros Hb. by apply IH in Hb.
Qed.

Lemma trim_empty (s : string) : trim s = "" ↔ blank s = true.
Proof. unfold trim. by rewrite trimEnd_empty, trimStart_blank. Qed.

(** X15. A send is rejected exactly when the component is busy, or the
    input consists of white space only and no attachment is pending; the
    send button is disabled in exactly these states and carries its
    active style in exactly the others, so the button never offers a send
    that [handleSend] would drop. *)
Theorem send_button_agrees (s : State) :
  sendDisabled s = guard s ∧
  sendHighlighted s = negb (sendDisabled s) ∧
  (guard s = true ↔
   isLoading s = true ∨ (blank (input s) = true ∧ attachment s = None)) ∧
  (∀ env, sendDisabled s = true → handleSend env s = s).
Proof.
  split; [done|]. split; [|split].
  - unfold sendHighlighted, sendDisabled.
    by destruct (truthy _), (bool_decide _), (isLoading s).
  - by rewrite guard_true, trim_empty.
  - intros env Hd. unfold handleSend.
    by replace (guard s) with true.
Qed.

(** X16. Dictation keeps what was typed in front of the transcript,
    separated by one space unless the buffer was empty, and touches nothing
    else; an idle component can send after any transcript that is not
    blank, and dictation never turns a sendable buffer into a blank
    one. *)
Theorem onTranscript_keeps_input (t : string) (s : State) :
  (input s = "" → input (onTranscript t s) = t) ∧
  (input s ≠ "" → input (onTranscript t s) = input s +:+ " " +:+ t) ∧
  messages (onTranscript t s) = messages s ∧
  attachment (onTranscript t s) = attachment s ∧
  isLoading (onTranscript t s) = isLoading s ∧
  (blank t = false ∨ blank (input s) = false →
   blank (input (onTranscript t s)) = false ∧
   (isLoading s = false → guard (onTranscript t s) = false)).
Proof.
  split; [by simpl; intros ->|].
  split; [by simpl; destruct (input s)|].
  do 3 (split; [done|]).
  intros Hb.
  assert (blank (input (onTranscript t s)) = false) as Hbl.
  { simpl. rewrite !blank_append.
    destruct Hb as [-> | ->]; [by rewrite !andb_false_r | done]. }
  split; [done|]. intros Hl. apply guard_false. split; [done|]. left.
  intros Ht%trim_empty. congruence.
Qed.

End sendable.

Section adequacy_example.

Lemma run_sendEvents_witness :
  inflight (step (EvInput "Hi") initialWorld) = [] ∧
  ui (run (sendEvents (sampleEnv (Opens [Some "He"; Some "llo!"] Completes)))
        (step (EvInput "Hi") initialWorld))
  = handleSend (sampleEnv (Opens [Some "He"; Some "llo!"] Completes)) (typed "Hi").
Proof.
  split; [reflexivity|].
  exact (run_sendEvents (sampleEnv (Opens [Some "He"; Some "llo!"] Completes))
           (step (EvInput "Hi") initialWorld) eq_refl).
Defined.

End adequacy_example.
